(** * sockpp: handle lifecycle, N-byte stream loops and timed connect

    A shallow embedding of the consolidated translation unit [socket.cpp]
    (classes [socket], [stream_socket] and [connector]).  Every method is a
    state transformer over a [machine]: the object's [handle_] together with
    the part of the operating system the methods talk to (the descriptor
    table, the per-descriptor status flags, the replies the kernel gives and
    the record of the calls made so far). *)

From Stdlib Require Import ZArith List Lia Bool.
From stdpp Require Import base decidable gmap.
Import ListNotations.
Open Scope Z_scope.

(** ** Error codes *)

(** A [std::error_code] of the system category, kept as its number; [0] is
    "no error". *)
Definition error_code := Z.

(** The [errc] conditions the translation unit names, with the numbers a
    Linux [<errno.h>] gives them. *)
Module errc.
Definition interrupted : positive := 4%positive.
Definition bad_file_descriptor : positive := 9%positive.
Definition operation_would_block : positive := 11%positive.
Definition invalid_argument : positive := 22%positive.
Definition timed_out : positive := 110%positive.
Definition connection_refused : positive := 111%positive.
Definition operation_in_progress : positive := 115%positive.
End errc.

(** ** The result model *)

(** Modelled from the spec: [result.h] is not part of the sources at hand.
    A result holds either a success value or an error descriptor, and is
    truthy iff it holds a success value. *)
Inductive result (T : Type) : Type :=
| Ok (v : T)
| Err (e : error_code).
Arguments Ok {T} v.
Arguments Err {T} e.

Definition is_ok {T} (r : result T) : bool :=
  match r with Ok _ => true | Err _ => false end.

(** Modelled from the spec: [result::error()]; in the success state it
    yields the "no error" sentinel. *)
Definition error {T} (r : result T) : error_code :=
  match r with Ok _ => 0 | Err e => e end.

(** Modelled from the spec: [result<T>::from_error(int)].  The code [0] is
    "no error", so the outcome is a success holding the default value. *)
Definition from_error {T} (dflt : T) (e : Z) : result T :=
  if e =? 0 then Ok dflt else Err e.

(** Modelled from the spec: the comparison of a result against a named
    condition, [res == errc::x], which [result.h] declares.  It needs no
    unwrapping: it looks at the error, and a success holds "no error". *)
Definition is_errc {T} (r : result T) (c : positive) : bool :=
  error r =? Z.pos c.

(** ** The operating system *)

Inductive platform := Posix | Windows.

(** What a system call hands back: a non-negative value, or the failure
    sentinel together with a non-zero error number. *)
Inductive reply :=
| Done (v : N)
| Failed (errno : positive).

(** The timeout argument of the readiness wait: milliseconds for [poll],
    a [timeval] for [select]. *)
Inductive wait_bound :=
| PollMs (ms : Z)
| SelectTv (tv_sec tv_usec : Z).

Inductive syscall :=
| SysSocket (domain : Z)
| SysClose (h : Z)
| SysGetFl (h : Z)
| SysSetFl (h flags : Z)
| SysIoctlFionbio (h mode : Z)
| SysConnect (h family : Z)
| SysWait (h : Z) (bound : wait_bound)
| SysGetSockOpt (h level optname : Z)
| SysSetSockOpt (h level optname optval : Z)
| SysBind (h family : Z)
| SysRecv (h len : Z)
| SysSend (h len : Z).

(** One entry of the call record: the call and what it returned. *)
Definition event : Type := syscall * reply.

(** Constants of the system headers (Linux values; Winsock's
    [SO_REUSEADDR] on Windows). *)
Definition INVALID_SOCKET : Z := -1.
Definition O_RDWR : Z := 2.
Definition O_NONBLOCK : Z := 2048.
Definition SOL_SOCKET : Z := 1.
Definition SO_ERROR : Z := 4.
Definition SO_REUSEADDR (p : platform) : Z :=
  match p with Posix => 2 | Windows => 4 end.
Definition SO_REUSEPORT : Z := 15.

(** The machine: the socket object's only data member [handle_], and the
    host it runs on.  [script] is the sequence of replies the kernel gives
    to the calls whose outcome the program cannot know; [cursor] counts how
    many of them were consumed. *)
Record machine := Machine {
  handle_ : Z;
  host : platform;
  fds : gset Z;
  flags : gmap Z Z;
  script : nat -> reply;
  cursor : nat;
  trace : list event
}.

(** Methods are state transformers. *)
Definition M (A : Type) : Type := machine -> A * machine.

Definition ret {A} (a : A) : M A := fun m => (a, m).

Definition bind_M {A B} (c : M A) (k : A -> M B) : M B :=
  fun m => match c m with (a, m') => k a m' end.

Declare Scope method_scope.
Delimit Scope method_scope with method.
Notation "'let*' x ':=' c 'in' k" := (bind_M c (fun x => k))
  (at level 10, x name, c at level 100, k at level 200) : method_scope.
Notation "'exec' c 'then' k" := (bind_M c (fun _ => k))
  (at level 10, c at level 100, k at level 200) : method_scope.
Open Scope method_scope.

(** *** Kernel primitives *)

Definition with_handle (h : Z) (m : machine) : machine :=
  Machine h (host m) (fds m) (flags m) (script m) (cursor m) (trace m).

Definition with_table (s : gset Z) (f : gmap Z Z) (m : machine) : machine :=
  Machine (handle_ m) (host m) s f (script m) (cursor m) (trace m).

(** A call the kernel answers from the script. *)
Definition ask (c : syscall) : M reply := fun m =>
  let r := script m (cursor m) in
  (r, Machine (handle_ m) (host m) (fds m) (flags m) (script m)
        (S (cursor m)) (trace m ++ [(c, r)])).

(** A call whose answer the descriptor table determines. *)
Definition note (c : syscall) (r : reply) : M reply := fun m =>
  (r, Machine (handle_ m) (host m) (fds m) (flags m) (script m)
        (cursor m) (trace m ++ [(c, r)])).

Definition flags_of (m : machine) (h : Z) : Z := default 0 (flags m !! h).

(** [::socket]: on success the new descriptor enters the table, in
    blocking mode. *)
Definition sys_socket (domain : Z) : M reply :=
  let* r := ask (SysSocket domain) in
  match r with
  | Done v => fun m =>
      (r, with_table ({[Z.of_N v]} ∪ fds m) (<[Z.of_N v := O_RDWR]> (flags m)) m)
  | Failed _ => ret r
  end.

(** [::close] / [::closesocket]: a descriptor that is not open is refused
    with [EBADF]; an open one leaves the table whatever the kernel reports
    about the release. *)
Definition sys_close (h : Z) : M reply := fun m =>
  if decide (h ∈ fds m) then
    (let* r := ask (SysClose h) in
     fun m' => (r, with_table (fds m' ∖ {[h]}) (delete h (flags m')) m')) m
  else note (SysClose h) (Failed errc.bad_file_descriptor) m.

(** [::fcntl(h, F_GETFL, 0)]. *)
Definition sys_getfl (h : Z) : M reply := fun m =>
  if decide (h ∈ fds m) then note (SysGetFl h) (Done (Z.to_N (flags_of m h))) m
  else note (SysGetFl h) (Failed errc.bad_file_descriptor) m.

(** [::fcntl(h, F_SETFL, fl)]. *)
Definition sys_setfl (h fl : Z) : M reply := fun m =>
  if decide (h ∈ fds m) then
    note (SysSetFl h fl) (Done 0) (with_table (fds m) (<[h := fl]> (flags m)) m)
  else note (SysSetFl h fl) (Failed errc.bad_file_descriptor) m.

(** [::ioctlsocket(h, FIONBIO, &mode)]: the same per-descriptor mode bit,
    reached through a control code. *)
Definition sys_ioctl_fionbio (h mode : Z) : M reply := fun m =>
  if decide (h ∈ fds m) then
    let fl := if mode =? 0 then Z.land (flags_of m h) (Z.lnot O_NONBLOCK)
              else Z.lor (flags_of m h) O_NONBLOCK in
    note (SysIoctlFionbio h mode) (Done 0)
         (with_table (fds m) (<[h := fl]> (flags m)) m)
  else note (SysIoctlFionbio h mode) (Failed errc.bad_file_descriptor) m.

(** [::recv] and [::send] never transfer more than the [len] asked for. *)
Definition clamp (len : Z) (r : reply) : reply :=
  match r with
  | Done v => Done (N.min v (Z.to_N len))
  | Failed e => Failed e
  end.

Definition sys_recv (h len : Z) : M reply := fun m =>
  let r := clamp len (script m (cursor m)) in
  (r, Machine (handle_ m) (host m) (fds m) (flags m) (script m)
        (S (cursor m)) (trace m ++ [(SysRecv h len, r)])).

Definition sys_send (h len : Z) : M reply := fun m =>
  let r := clamp len (script m (cursor m)) in
  (r, Machine (handle_ m) (host m) (fds m) (flags m) (script m)
        (S (cursor m)) (trace m ++ [(SysSend h len, r)])).

(** *** From a raw return to a result *)

(** Modelled from the spec: [check_res], [check_res_none] and
    [check_socket] are declared in headers that are not at hand.  A call
    that returned the failure sentinel yields the error the platform
    reported for it; any other return is the success value. *)
Definition check_res (r : reply) : result Z :=
  match r with Done v => Ok (Z.of_N v) | Failed e => Err (Z.pos e) end.

Definition check_res_none (r : reply) : result unit :=
  match r with Done _ => Ok tt | Failed e => Err (Z.pos e) end.

Definition check_socket (r : reply) : result Z := check_res r.

(** ** class socket *)

Module socket.

(** Modelled from the spec: [handle()], the accessor of [socket.h] for the
    descriptor the object owns. *)
Definition handle : M Z := fun m => (handle_ m, m).

(** Modelled from the spec: [release()] is defined in [socket.h], which is
    not at hand.  Ownership of the descriptor passes to the caller and the
    object is left holding the invalid sentinel. *)
Definition release : M Z := fun m => (handle_ m, with_handle INVALID_SOCKET m).

(** [static result<> close(socket_t h)] *)
Definition close_handle (h : Z) : M (result unit) :=
  let* r := sys_close h in ret (check_res_none r).

(** [result<> close()] *)
Definition close : M (result unit) :=
  let* h := handle in
  if negb (h =? INVALID_SOCKET) then
    let* h' := release in close_handle h'
  else ret (Ok tt).

(** [void reset(socket_t h = INVALID_SOCKET)] *)
Definition reset (h : Z) : M unit :=
  let* cur := handle in
  if negb (h =? cur) then
    (* std::swap(h, handle_) *)
    exec (fun m => (tt, with_handle h m)) then
    if negb (cur =? INVALID_SOCKET) then exec close_handle cur then ret tt
    else ret tt
  else ret tt.

(** [result<int> get_flags() const] *)
Definition get_flags : M (result Z) :=
  let* h := handle in
  let* r := sys_getfl h in ret (check_res r).

(** [result<> set_flags(int flags)] *)
Definition set_flags (fl : Z) : M (result unit) :=
  let* h := handle in
  let* r := sys_setfl h fl in ret (check_res_none r).

(** [result<> set_flag(int flag, bool on = true)] *)
Definition set_flag (flag : Z) (on : bool) : M (result unit) :=
  let* res := get_flags in
  match res with
  | Err e => ret (Err e)
  | Ok fl =>
      let fl := if on then Z.lor fl flag else Z.land fl (Z.lnot flag) in
      set_flags fl
  end.

(** [bool is_non_blocking() const] *)
Definition is_non_blocking : M bool :=
  let* res := get_flags in
  ret (match res with
       | Ok fl => negb (Z.land fl O_NONBLOCK =? 0)
       | Err _ => false
       end).

(** [result<> set_non_blocking(bool on = true)] *)
Definition set_non_blocking (on : bool) : M (result unit) :=
  fun m =>
    match host m with
    | Windows =>
        (let* h := handle in
         let* r := sys_ioctl_fionbio h (if on then 1 else 0) in
         let res := check_res r in
         ret (if is_ok res then Ok tt else Err (error res))) m
    | Posix => set_flag O_NONBLOCK on m
    end.

(** [result<> get_option(int level, int optname, void* optval,
    socklen_t* optlen) const], called with an [int] to fill.  Next to the
    result the model hands back what was stored through [optval]; the
    kernel's [Done v] stands for "returned 0 and stored [v]". *)
Definition get_option (level optname : Z) : M (result unit * option Z) :=
  let* h := handle in
  let* r := ask (SysGetSockOpt h level optname) in
  let res := check_res r in
  ret (if is_ok res then Ok tt else Err (error res),
       match r with Done v => Some (Z.of_N v) | Failed _ => None end).

(** [result<> set_option(int level, int optname, const void* optval,
    socklen_t optlen)], called with an [int] value. *)
Definition set_option (level optname optval : Z) : M (result unit) :=
  let* h := handle in
  let* r := ask (SysSetSockOpt h level optname optval) in
  ret (check_res_none r).

(** [result<> bind(const sock_address& addr, int reuse)]; of the address
    only the family is recorded. *)
Definition bind (family reuse : Z) : M (result unit) :=
  fun m =>
    (if negb (reuse =? 0) then
       let unsupported :=
         match host m with
         | Windows => negb (reuse =? SO_REUSEADDR Windows)
         | Posix => negb (reuse =? SO_REUSEADDR Posix)
                    && negb (reuse =? SO_REUSEPORT)
         end in
       if unsupported then ret (Err (Z.pos errc.invalid_argument))
       else
         let* res := set_option SOL_SOCKET reuse 1 in
         if negb (is_ok res) then ret res
         else
           let* h := handle in
           let* r := ask (SysBind h family) in ret (check_res_none r)
     else
       let* h := handle in
       let* r := ask (SysBind h family) in ret (check_res_none r)) m.

End socket.

(** ** Fixed-width arithmetic *)

(** [int(x)]: narrowing to a 32-bit signed integer. *)
Definition to_int (x : Z) : Z := (x + 2 ^ 31) mod 2 ^ 32 - 2 ^ 31.

(** [size_t] addition on a 64-bit target. *)
Definition size_add (a b : Z) : Z := (a + b) mod 2 ^ 64.

(** ** class stream_socket *)

(** How a run of a loop ends: it returned, it was stopped because
    [result::value()] refused to hand out a value, or it was still going
    round when the fuel given to the model ran out. *)
Inductive outcome (A : Type) : Type :=
| Returned (a : A)
| Refused
| Spinning.
Arguments Returned {A} a.
Arguments Refused {A}.
Arguments Spinning {A}.

Module stream_socket.

(** [result::value()] on a [result<size_t>].  What the accessor does in
    the error state is fixed by [result.h], which is not at hand, and is
    taken as the parameter [in_error]: [None] when the accessor refuses
    (throws or aborts), [Some v] when it hands out the stored [v]. *)
Definition value (in_error : error_code -> option Z) (r : result Z)
  : option Z :=
  match r with Ok v => Some v | Err e => in_error e end.

(** The length handed to [::recv]/[::send]: [n] itself, narrowed with
    [int(n)] in the Windows build. *)
Definition io_len (n : Z) : M Z := fun m =>
  (match host m with Windows => to_int n | Posix => n end, m).

(** [result<size_t> read(void* buf, size_t n)] *)
Definition read (n : Z) : M (result Z) :=
  let* h := socket.handle in
  let* len := io_len n in
  let* r := sys_recv h len in ret (check_res r).

(** [result<size_t> write(const void* buf, size_t n)] *)
Definition write (n : Z) : M (result Z) :=
  let* h := socket.handle in
  let* len := io_len n in
  let* r := sys_send h len in ret (check_res r).

(** The [while (nx < n)] loop of [read_n], from the state [nx]. *)
Fixpoint read_n_loop (in_error : error_code -> option Z) (fuel : nat)
    (n nx : Z) : M (outcome (result Z)) :=
  match fuel with
  | O => ret Spinning
  | S fuel' =>
      if nx <? n then
        let* res := read (n - nx) in
        if negb (is_ok res) && negb (is_errc res errc.interrupted)
        then ret (Returned (Err (error res)))
        else
          match value in_error res with
          | Some v => read_n_loop in_error fuel' n (size_add nx v)
          | None => ret Refused
          end
      else ret (Returned (Ok nx))
  end.

(** [result<size_t> read_n(void* buf, size_t n)] *)
Definition read_n (in_error : error_code -> option Z) (fuel : nat) (n : Z)
  : M (outcome (result Z)) :=
  read_n_loop in_error fuel n 0.

(** The [while (nx < n)] loop of [write_n], from the state [nx]. *)
Fixpoint write_n_loop (in_error : error_code -> option Z) (fuel : nat)
    (n nx : Z) : M (outcome (result Z)) :=
  match fuel with
  | O => ret Spinning
  | S fuel' =>
      if nx <? n then
        let* res := write (n - nx) in
        if negb (is_ok res) && negb (is_errc res errc.interrupted)
        then ret (Returned (Err (error res)))
        else
          match value in_error res with
          | Some v => write_n_loop in_error fuel' n (size_add nx v)
          | None => ret Refused
          end
      else ret (Returned (Ok nx))
  end.

(** [result<size_t> write_n(const void* buf, size_t n)] *)
Definition write_n (in_error : error_code -> option Z) (fuel : nat) (n : Z)
  : M (outcome (result Z)) :=
  write_n_loop in_error fuel n 0.

End stream_socket.

(** ** class connector *)

(** [to_timeval]: whole seconds and the remaining microseconds; [tv_sec]
    is a [long] in the Windows build. *)
Definition to_timeval (p : platform) (dur : Z) : wait_bound :=
  let sec := Z.quot dur 1000000 in
  SelectTv (match p with Windows => to_int sec | Posix => sec end)
           (dur - sec * 1000000).

Module connector.

(** Modelled from the spec: [create_handle] is declared in
    [stream_socket.h], which is not at hand.  It asks the OS for a
    descriptor of the given family and fails with the system error when
    the OS refuses. *)
Definition create_handle (domain : Z) : M (result Z) :=
  let* r := sys_socket domain in ret (check_socket r).

(** [result<> recreate(const sock_address& addr)] *)
Definition recreate (family : Z) : M (result unit) :=
  let* res := create_handle family in
  match res with
  | Err e => ret (Err e)
  | Ok h => exec socket.reset h then ret (Ok tt)
  end.

(** [result<none> connect(const sock_address& addr)] *)
Definition connect (family : Z) : M (result unit) :=
  let* res := recreate family in
  if negb (is_ok res) then ret res
  else
    let* h := socket.handle in
    let* r := ask (SysConnect h family) in ret (check_res_none r).

(** The readiness wait: [poll] with a millisecond count, or [select] with
    a [timeval] in the Windows build. *)
Definition wait_ready (timeout : Z) : M reply := fun m =>
  match host m with
  | Windows => ask (SysWait (handle_ m) (to_timeval Windows timeout)) m
  | Posix => ask (SysWait (handle_ m) (PollMs (to_int (Z.quot timeout 1000)))) m
  end.

(** [result<> connect(const sock_address& addr, microseconds timeout)];
    [timeout] is the duration's count of microseconds. *)
Definition connect_timeout (family timeout : Z) : M (result unit) :=
  if timeout <=? 0 then connect family
  else
    let* rc := recreate family in
    if negb (is_ok rc) then ret rc
    else
      let* non_blocking :=
        (fun m => match host m with
                  | Windows => ret false m
                  | Posix => socket.is_non_blocking m
                  end) in
      exec (if negb non_blocking
            then exec socket.set_non_blocking true then ret tt
            else ret tt) then
      let* h := socket.handle in
      let* r := ask (SysConnect h family) in
      let res := check_res r in
      let* early :=
        (if negb (is_ok res) then
           let err := error res in
           let* res :=
             (if (err =? Z.pos errc.operation_in_progress)
                 || (err =? Z.pos errc.operation_would_block)
              then
                let* w := wait_ready timeout in
                match check_res w with
                | Ok ready =>
                    if ready >? 0 then
                      let* g := socket.get_option SOL_SOCKET SO_ERROR in
                      match g with
                      | (Ok _, Some pending) => ret (from_error 0 pending)
                      | _ => ret (Ok ready)
                      end
                    else ret (Err (Z.pos errc.timed_out))
                | Err e => ret (Err e)
                end
              else ret res) in
           if negb (is_ok res) then
             exec socket.close then ret (Some (error res))
           else ret None
         else ret None) in
      match early with
      | Some e => ret (Err e)
      | None =>
          exec (if negb non_blocking
                then exec socket.set_non_blocking false then ret tt
                else ret tt) then
          ret (Ok tt)
      end.

End connector.

(** ** class datagram_socket *)

Module datagram_socket.

(** Modelled from the spec: [create_handle] is declared in
    [datagram_socket.h], which is not at hand.  It asks the OS for a
    descriptor of the given family and fails with the system error when
    the OS refuses. *)
Definition create_handle (domain : Z) : M (result Z) :=
  let* r := sys_socket domain in ret (check_socket r).

(** [result<> open(const sock_address& addr)].  The call [bind(addr)]
    leaves the reuse option to the default argument of the declaration in
    [socket.h], which is not at hand: it is the parameter [reuse]. *)
Definition open (reuse family : Z) : M (result unit) :=
  let* createRes := create_handle family in
  match createRes with
  | Err e => ret (Err e)
  | Ok h =>
      exec socket.reset h then
      let* res := socket.bind family reuse in
      if negb (is_ok res) then exec socket.close then ret res
      else ret (Ok tt)
  end.

End datagram_socket.

(** * Vocabulary of the statements *)

(** ** Machines to run the methods on *)

(** A host with nothing open, whose kernel answers from the list [l] and
    with [d] once the list is used up. *)
Definition boot (p : platform) (h : Z) (l : list reply) (d : reply) : machine :=
  Machine h p ∅ ∅ (fun i => nth i l d) 0 [].

(** The same host with the descriptors of [open] in its table. *)
Definition boot_open (p : platform) (h : Z) (open : list Z) (l : list reply)
    (d : reply) : machine :=
  Machine h p (list_to_set open) ∅ (fun i => nth i l d) 0 [].

(** [::socket] grants descriptor 3 and [::connect] is refused. *)
Definition refusing_host : machine :=
  boot Posix INVALID_SOCKET [Done 3; Failed errc.connection_refused] (Done 0).

(** [::socket] grants descriptor 3, [::connect] is in progress, the wait
    reports one ready descriptor and [SO_ERROR] holds [pending]. *)
Definition pending_host (pending : N) : machine :=
  boot Posix INVALID_SOCKET
    [Done 3; Failed errc.operation_in_progress; Done 1; Done pending] (Done 0).

(** [::socket] grants descriptor 3, [::connect] is in progress and the
    wait elapses with nothing ready. *)
Definition silent_host : machine :=
  boot Posix INVALID_SOCKET
    [Done 3; Failed errc.operation_in_progress; Done 0] (Done 0).

(** The machine after one more scripted call [c] whose reply was [r]. *)
Definition after_call (c : syscall) (r : reply) (m : machine) : machine :=
  Machine (handle_ m) (host m) (fds m) (flags m) (script m)
          (S (cursor m)) (trace m ++ [(c, r)]).

(** Two machines that differ in the cursor and the trace only. *)
Definition same_table (m m' : machine) : Prop :=
  handle_ m' = handle_ m /\ host m' = host m /\ fds m' = fds m
  /\ flags m' = flags m /\ script m' = script m.

(** ** Handle lifecycle and [bind] *)

(** The reuse options a platform supports, in the words of the claim. *)
Definition reuse_supported (p : platform) (reuse : Z) : Prop :=
  match p with
  | Windows => reuse = SO_REUSEADDR Windows
  | Posix => reuse = SO_REUSEADDR Posix \/ reuse = SO_REUSEPORT
  end.

(** ** The N-byte loops *)

(** The length that reaches the kernel for a request of [n] bytes. *)
Definition len_on (m : machine) (n : Z) : Z :=
  match host m with Windows => to_int n | Posix => n end.

(** An accessor that hands out the default value on any error result. *)
Definition unchecked : error_code -> option Z := fun _ => Some 0.

(** An accessor that hands out a value in the success state only. *)
Definition checked : error_code -> option Z := fun _ => None.

(** An accessor that refuses every error result but the interrupted one. *)
Definition interrupted_only : error_code -> option Z :=
  fun e => if e =? Z.pos errc.interrupted then Some 0 else None.

(** A reply that leaves the loop where it was: a zero-length success or an
    interrupted error. *)
Definition stalls (r : reply) : bool :=
  match r with
  | Done v => N.eqb v 0
  | Failed e => Pos.eqb e errc.interrupted
  end.

(** A reply that ends the loop: an error other than interrupted. *)
Definition aborts (r : reply) : bool :=
  match r with
  | Done _ => false
  | Failed e => negb (Pos.eqb e errc.interrupted)
  end.

(** What [read_n] may hand back on the script of [m] read from position
    [c]: all [n] bytes, or the first error that is not "interrupted". *)
Definition read_n_answer (m : machine) (c : nat) (n : Z) (r : result Z) : Prop :=
  r = Ok n
  \/ exists e k,
       r = Err (Z.pos e) /\ script m (c + k)%nat = Failed e
       /\ e <> errc.interrupted
       /\ forall j, (j < k)%nat -> aborts (script m (c + j)%nat) = false.

(** ** The timed connect *)

(** The body of the timed connect after [recreate] is followed in three
    stretches; [connect_timeout_stretches] below shows that they make up
    the method. *)

(** First stretch: note the current mode and switch to non-blocking. *)
Definition enter_non_blocking : M bool :=
  let* non_blocking :=
    (fun m => match host m with
              | Windows => ret false m
              | Posix => socket.is_non_blocking m
              end) in
  exec (if negb non_blocking
        then exec socket.set_non_blocking true then ret tt
        else ret tt) then
  ret non_blocking.

(** Second stretch: [::connect], and when it is under way the readiness
    wait and the reading of [SO_ERROR]; the outcome is the final [res]. *)
Definition attempt (family timeout : Z) : M (result Z) :=
  let* h := socket.handle in
  let* r := ask (SysConnect h family) in
  let res := check_res r in
  if negb (is_ok res) then
    let err := error res in
    if (err =? Z.pos errc.operation_in_progress)
       || (err =? Z.pos errc.operation_would_block)
    then
      let* w := connector.wait_ready timeout in
      match check_res w with
      | Ok ready =>
          if ready >? 0 then
            let* g := socket.get_option SOL_SOCKET SO_ERROR in
            match g with
            | (Ok _, Some pending) => ret (from_error 0 pending)
            | _ => ret (Ok ready)
            end
          else ret (Err (Z.pos errc.timed_out))
      | Err e => ret (Err e)
      end
    else ret res
  else ret res.

(** Third stretch: on a failed [res] close and return its error, else
    restore the mode and return success. *)
Definition leave (non_blocking : bool) (res : result Z) : M (result unit) :=
  if negb (is_ok res) then
    exec socket.close then ret (Err (error res))
  else
    exec (if negb non_blocking
          then exec socket.set_non_blocking false then ret tt
          else ret tt) then
    ret (Ok tt).

(** The calls of the connection attempt proper. *)
Definition attempt_call (c : syscall) : bool :=
  match c with
  | SysConnect _ _ | SysWait _ _ | SysGetSockOpt _ _ _ => true
  | _ => false
  end.

(** Events none of which belongs to the connection attempt. *)
Definition outside_attempt (evs : list event) : Prop :=
  Forall (fun ev => attempt_call (fst ev) = false) evs.

(** The calls that create or release a descriptor. *)
Definition lifecycle_call (c : syscall) : bool :=
  match c with SysSocket _ | SysClose _ => true | _ => false end.

(** The blocking mode an event gives descriptor [h]: [Some true] when a
    successful [F_SETFL] or [FIONBIO] makes it non-blocking, [Some false]
    when one makes it blocking, [None] for any other event. *)
Definition mode_change (h : Z) (ev : event) : option bool :=
  match ev with
  | (SysSetFl h' fl, Done _) =>
      if h' =? h then Some (negb (Z.land fl O_NONBLOCK =? 0)) else None
  | (SysIoctlFionbio h' mode, Done _) =>
      if h' =? h then Some (negb (mode =? 0)) else None
  | _ => None
  end.

(** The mode changes descriptor [h] went through in [evs], in order. *)
Definition mode_changes (h : Z) (evs : list event) : list bool :=
  omap (mode_change h) evs.

(** The bound handed to the readiness wait on the host of [m]. *)
Definition bound_on (m : machine) (timeout : Z) : wait_bound :=
  match host m with
  | Windows => to_timeval Windows timeout
  | Posix => PollMs (to_int (Z.quot timeout 1000))
  end.

(** The two errors of a non-blocking [::connect] that is under way. *)
Definition in_flight (e : positive) : Prop :=
  e = errc.operation_in_progress \/ e = errc.operation_would_block.

(** The runs of the connection attempt on descriptor [h]: the calls made,
    with their replies, and the [res] the attempt ends with. *)
Inductive attempt_run (h family : Z) (b : wait_bound)
  : list event -> result Z -> Prop :=
| run_connected v :
    attempt_run h family b [(SysConnect h family, Done v)] (Ok (Z.of_N v))
| run_failed e :
    ~ in_flight e ->
    attempt_run h family b [(SysConnect h family, Failed e)] (Err (Z.pos e))
| run_wait_failed e e' :
    in_flight e ->
    attempt_run h family b
      [(SysConnect h family, Failed e); (SysWait h b, Failed e')]
      (Err (Z.pos e'))
| run_timed_out e :
    in_flight e ->
    attempt_run h family b
      [(SysConnect h family, Failed e); (SysWait h b, Done 0)]
      (Err (Z.pos errc.timed_out))
| run_ready_unread e k e' :
    in_flight e -> k <> 0%N ->
    attempt_run h family b
      [(SysConnect h family, Failed e); (SysWait h b, Done k);
       (SysGetSockOpt h SOL_SOCKET SO_ERROR, Failed e')]
      (Ok (Z.of_N k))
| run_ready e k pending :
    in_flight e -> k <> 0%N ->
    attempt_run h family b
      [(SysConnect h family, Failed e); (SysWait h b, Done k);
       (SysGetSockOpt h SOL_SOCKET SO_ERROR, Done pending)]
      (from_error 0 (Z.of_N pending)).

(** What the caller gets for the [res] the attempt ended with. *)
Definition verdict (res : result Z) : result unit :=
  match res with Ok _ => Ok tt | Err e => Err e end.

(** ** Further vocabulary *)

(** The bytes a transfer event moved. *)
Definition bytes_of (ev : event) : Z :=
  match ev with
  | (SysRecv _ _, Done v) | (SysSend _ _, Done v) => Z.of_N v
  | _ => 0
  end.

(** The bytes moved by the transfers of [evs], all told. *)
Definition transferred (evs : list event) : Z :=
  fold_right (fun ev acc => bytes_of ev + acc) 0 evs.

(** The length asked of the kernel by a transfer event. *)
Definition asked_of (ev : event) : Z :=
  match ev with
  | (SysRecv _ len, _) | (SysSend _ len, _) => len
  | _ => 0
  end.

(** A host on which [::socket] grants descriptor 3 and [::connect]
    succeeds at once. *)
Definition welcoming_host : machine :=
  boot Posix INVALID_SOCKET [Done 3; Done 0] (Done 0).

(** A host on which the readiness wait itself fails. *)
Definition broken_wait_host : machine :=
  boot Posix INVALID_SOCKET
    [Done 3; Failed errc.operation_in_progress; Failed errc.interrupted]
    (Done 0).

(** A host on which the descriptor is ready but [SO_ERROR] cannot be read. *)
Definition unread_host : machine :=
  boot Posix INVALID_SOCKET
    [Done 3; Failed errc.operation_in_progress; Done 1;
     Failed errc.bad_file_descriptor] (Done 0).

(** A host that refuses to hand out descriptors, with descriptor 7 owned
    and open. *)
Definition exhausted_host : machine :=
  boot_open Posix 7 [7] [Failed 24%positive] (Done 0).

(** A host with descriptor 7 owned and open, whose kernel answers from
    [l]. *)
Definition busy_host (p : platform) (l : list reply) : machine :=
  boot_open p 7 [7] l (Done 0).

(** A host with descriptor 3 owned, open and in blocking mode. *)
Definition fresh_host (p : platform) : machine :=
  Machine 3 p {[3]} {[3 := O_RDWR]} (fun _ => Done 0) 0 [].

(** ** Tactics *)

Ltac run_method :=
  unfold socket.close, socket.reset, socket.close_handle, socket.release,
    socket.handle, socket.set_option, sys_close, ask, note, bind_M, ret,
    with_handle, with_table in *;
  simpl in *.

Ltac pj :=
  cbn [with_table with_handle after_call handle_ fds flags host script
       cursor trace fst snd].

Ltac crunch :=
  repeat first
    [ reflexivity
    | progress cbn [is_ok negb error fst snd]
    | match goal with
      | |- context [socket.is_non_blocking ?m] =>
          destruct (socket.is_non_blocking m) as [[|] ?]
      | |- context [socket.set_non_blocking ?b ?m] =>
          destruct (socket.set_non_blocking b m) as [? ?]
      | |- context [ask ?c ?m] => destruct (ask c m) as [? ?]
      | |- context [connector.wait_ready ?t ?m] =>
          destruct (connector.wait_ready t m) as [? ?]
      | |- context [socket.get_option ?a ?b ?m] =>
          destruct (socket.get_option a b m) as [[[?|?] [?|]] ?]
      | |- context [socket.close ?m] => destruct (socket.close m) as [? ?]
      | |- context [check_res ?r] => destruct (check_res r)
      | |- context [from_error ?d ?p] => destruct (from_error d p)
      | |- context [if ?b then _ else _] => destruct b
      end ].

Ltac sift H :=
  simpl in H;
  repeat (destruct H as [H|H]; [try discriminate H|]);
  try contradiction.

(** * Handle lifecycle *)

Lemma close_invalid (m : machine) :
  handle_ m = INVALID_SOCKET -> socket.close m = (Ok tt, m).
Proof.
  intros Hinv. run_method. rewrite Hinv. reflexivity.
Qed.

Lemma close_leaves_invalid (m : machine) :
  handle_ (snd (socket.close m)) = INVALID_SOCKET.
Proof.
  run_method.
  destruct (handle_ m =? INVALID_SOCKET) eqn:Heq; simpl.
  - apply Z.eqb_eq in Heq. exact Heq.
  - destruct (decide (handle_ m ∈ fds m)); reflexivity.
Qed.

Lemma close_valid_trace (m : machine) :
  handle_ m <> INVALID_SOCKET ->
  exists r, trace (snd (socket.close m)) = trace m ++ [(SysClose (handle_ m), r)]
            /\ fst (socket.close m) = check_res_none r
            /\ handle_ m ∉ fds (snd (socket.close m)).
Proof.
  intros Hval. apply Z.eqb_neq in Hval. run_method. rewrite Hval. simpl.
  destruct (decide (handle_ m ∈ fds m)) as [Hin|Hout]; simpl.
  - exists (script m (cursor m)). repeat split.
    apply not_elem_of_difference. right. apply elem_of_singleton. reflexivity.
  - exists (Failed errc.bad_file_descriptor). repeat split. exact Hout.
Qed.

(** C8. [socket::close] is idempotent.  On an invalid handle it returns
    success and leaves the machine as it was: no call reaches the OS.  The
    state left by any [close] holds the invalid sentinel, so a second
    [close] is such a call and no descriptor is released twice.  On a valid
    handle exactly one release is asked of the OS, and an error it reports
    comes back to the caller. *)
Theorem close_idempotent (m : machine) :
  (handle_ m = INVALID_SOCKET -> socket.close m = (Ok tt, m))
  /\ socket.close (snd (socket.close m)) = (Ok tt, snd (socket.close m))
  /\ (handle_ m <> INVALID_SOCKET ->
      exists r,
        trace (snd (socket.close m)) = trace m ++ [(SysClose (handle_ m), r)]
        /\ (forall e, r = Failed e -> fst (socket.close m) = Err (Z.pos e))
        /\ (forall v, r = Done v -> fst (socket.close m) = Ok tt)).
Proof.
  split; [apply close_invalid|].
  split; [apply close_invalid, close_leaves_invalid|].
  intros Hval.
  destruct (close_valid_trace m Hval) as (r & Htr & Hres & _).
  exists r. split; [exact Htr|].
  split; intros x ->; rewrite Hres; reflexivity.
Qed.

Lemma close_idempotent_witness :
  socket.close (boot Posix INVALID_SOCKET [] (Done 0))
    = (Ok tt, boot Posix INVALID_SOCKET [] (Done 0))
  /\ fst (socket.close (boot_open Posix 3 [3] [Failed 5%positive] (Done 0)))
     = Err 5.
Proof.
  split.
  - apply (proj1 (close_idempotent (boot Posix INVALID_SOCKET [] (Done 0)))).
    reflexivity.
  - destruct (proj2 (proj2 (close_idempotent
                 (boot_open Posix 3 [3] [Failed 5%positive] (Done 0)))))
      as (r & Htr & Herr & _).
    + discriminate.
    + apply Herr. vm_compute in Htr. congruence.
Defined.

(** C10. [socket::reset(h)] with the handle already owned changes nothing.
    With any other [h] the object ends up owning [h]; an invalid previous
    handle causes no call at all, and a valid previous handle is handed to
    the OS for release exactly once and is no longer in the descriptor
    table afterwards.  All of this holds for [h] the invalid sentinel too. *)
Theorem reset_ownership (m : machine) (h : Z) :
  (h = handle_ m -> snd (socket.reset h m) = m)
  /\ (h <> handle_ m ->
      handle_ (snd (socket.reset h m)) = h
      /\ (handle_ m = INVALID_SOCKET ->
          snd (socket.reset h m) = with_handle h m)
      /\ (handle_ m <> INVALID_SOCKET ->
          (exists r, trace (snd (socket.reset h m))
                     = trace m ++ [(SysClose (handle_ m), r)])
          /\ handle_ m ∉ fds (snd (socket.reset h m)))).
Proof.
  split.
  - intros ->. run_method. rewrite Z.eqb_refl. reflexivity.
  - intros Hne. apply Z.eqb_neq in Hne. run_method. rewrite Hne. simpl.
    destruct (handle_ m =? INVALID_SOCKET) eqn:Hold; simpl.
    + split; [reflexivity|]. split; [reflexivity|].
      intros Hval. apply Z.eqb_eq in Hold. contradiction.
    + destruct (decide (handle_ m ∈ fds m)) as [Hin|Hout]; simpl.
      * split; [reflexivity|]. split.
        { intros Hinv. apply Z.eqb_neq in Hold. contradiction. }
        intros _. split; [eexists; reflexivity|].
        apply not_elem_of_difference. right. apply elem_of_singleton.
        reflexivity.
      * split; [reflexivity|]. split.
        { intros Hinv. apply Z.eqb_neq in Hold. contradiction. }
        intros _. split; [eexists; reflexivity|]. exact Hout.
Qed.

Lemma reset_ownership_witness :
  snd (socket.reset 3 (boot_open Posix 3 [3] [] (Done 0)))
    = boot_open Posix 3 [3] [] (Done 0)
  /\ handle_ (snd (socket.reset INVALID_SOCKET
                     (boot_open Posix 3 [3] [] (Done 0)))) = INVALID_SOCKET
  /\ snd (socket.reset 4 (boot Posix INVALID_SOCKET [] (Done 0)))
     = with_handle 4 (boot Posix INVALID_SOCKET [] (Done 0))
  /\ 3 ∉ fds (snd (socket.reset 4 (boot_open Posix 3 [3] [] (Done 0)))).
Proof.
  split; [|split; [|split]].
  - apply (proj1 (reset_ownership (boot_open Posix 3 [3] [] (Done 0)) 3)).
    reflexivity.
  - apply (proj2 (reset_ownership (boot_open Posix 3 [3] [] (Done 0))
                    INVALID_SOCKET)).
    discriminate.
  - apply (proj2 (reset_ownership (boot Posix INVALID_SOCKET [] (Done 0)) 4));
      [discriminate | reflexivity].
  - apply (proj2 (reset_ownership (boot_open Posix 3 [3] [] (Done 0)) 4));
      discriminate.
Defined.

(** * Address reuse in [bind] *)

(** C9. [socket::bind(addr, reuse)] with a non-zero [reuse]: an option the
    platform does not support gives the invalid-argument error and the
    machine is untouched (nothing is set, nothing is bound); a supported
    option is first set with [setsockopt], and [::bind] is called only
    after that call succeeded (a failure to set it is returned instead). *)
Theorem bind_reuse_checked (m : machine) (family reuse : Z) :
  reuse <> 0 ->
  (~ reuse_supported (host m) reuse ->
   socket.bind family reuse m = (Err (Z.pos errc.invalid_argument), m))
  /\ (reuse_supported (host m) reuse ->
      let set := SysSetSockOpt (handle_ m) SOL_SOCKET reuse 1 in
      (forall e, script m (cursor m) = Failed e ->
         fst (socket.bind family reuse m) = Err (Z.pos e)
         /\ trace (snd (socket.bind family reuse m))
            = trace m ++ [(set, Failed e)])
      /\ (forall v, script m (cursor m) = Done v ->
          exists r,
            trace (snd (socket.bind family reuse m))
            = trace m ++ [(set, Done v); (SysBind (handle_ m) family, r)]
            /\ fst (socket.bind family reuse m) = check_res_none r)).
Proof.
  intros Hnz. apply Z.eqb_neq in Hnz.
  unfold socket.bind. rewrite Hnz. simpl negb. cbv iota.
  split.
  - intros Hun. unfold reuse_supported in Hun.
    destruct (host m); simpl in *.
    + destruct (reuse =? 2) eqn:Ha; [apply Z.eqb_eq in Ha; tauto|].
      destruct (reuse =? SO_REUSEPORT) eqn:Hp; [apply Z.eqb_eq in Hp; tauto|].
      reflexivity.
    + destruct (reuse =? 4) eqn:Ha; [apply Z.eqb_eq in Ha; tauto|].
      reflexivity.
  - intros Hsup.
    assert (Hgo : match host m with
                  | Posix => negb (reuse =? SO_REUSEADDR Posix)
                             && negb (reuse =? SO_REUSEPORT)
                  | Windows => negb (reuse =? SO_REUSEADDR Windows)
                  end = false).
    { unfold reuse_supported in Hsup. destruct (host m).
      - destruct Hsup as [-> | ->]; reflexivity.
      - rewrite Hsup. reflexivity. }
    rewrite Hgo. run_method. split.
    + intros e He. rewrite He. simpl. split; reflexivity.
    + intros v Hv. rewrite Hv. simpl.
      eexists. split; [|reflexivity].
      rewrite <- app_assoc. reflexivity.
Qed.

Lemma bind_reuse_checked_witness :
  socket.bind 2 7 (boot_open Windows 3 [3] [] (Done 0))
    = (Err 22, boot_open Windows 3 [3] [] (Done 0))
  /\ fst (socket.bind 2 15 (boot_open Posix 3 [3] [Failed 13%positive] (Done 0)))
     = Err 13.
Proof.
  split.
  - apply (proj1 (bind_reuse_checked (boot_open Windows 3 [3] [] (Done 0)) 2 7
                    ltac:(discriminate))).
    simpl. discriminate.
  - apply (proj2 (bind_reuse_checked
                    (boot_open Posix 3 [3] [Failed 13%positive] (Done 0)) 2 15
                    ltac:(discriminate))).
    + right. reflexivity.
    + reflexivity.
Defined.

(** * The N-byte loops *)

Lemma read_unfold (n : Z) (m : machine) :
  stream_socket.read n m =
  let r := clamp (len_on m n) (script m (cursor m)) in
  (check_res r, after_call (SysRecv (handle_ m) (len_on m n)) r m).
Proof. reflexivity. Qed.

Lemma write_unfold (n : Z) (m : machine) :
  stream_socket.write n m =
  let r := clamp (len_on m n) (script m (cursor m)) in
  (check_res r, after_call (SysSend (handle_ m) (len_on m n)) r m).
Proof. reflexivity. Qed.

Lemma read_n_loop_step in_error fuel n nx m :
  stream_socket.read_n_loop in_error (S fuel) n nx m =
  if nx <? n then
    let res := fst (stream_socket.read (n - nx) m) in
    let m' := snd (stream_socket.read (n - nx) m) in
    if negb (is_ok res) && negb (is_errc res errc.interrupted)
    then (Returned (Err (error res)), m')
    else match stream_socket.value in_error res with
         | Some v => stream_socket.read_n_loop in_error fuel n (size_add nx v) m'
         | None => (Refused, m')
         end
  else (Returned (Ok nx), m).
Proof.
  cbn [stream_socket.read_n_loop]. destruct (nx <? n); [|reflexivity].
  unfold bind_M at 1. destruct (stream_socket.read (n - nx) m) as [res m'].
  cbn [fst snd]. unfold ret.
  destruct (negb (is_ok res) && negb (is_errc res errc.interrupted));
    [reflexivity|].
  destruct (stream_socket.value in_error res); reflexivity.
Qed.

Lemma write_n_loop_step in_error fuel n nx m :
  stream_socket.write_n_loop in_error (S fuel) n nx m =
  if nx <? n then
    let res := fst (stream_socket.write (n - nx) m) in
    let m' := snd (stream_socket.write (n - nx) m) in
    if negb (is_ok res) && negb (is_errc res errc.interrupted)
    then (Returned (Err (error res)), m')
    else match stream_socket.value in_error res with
         | Some v => stream_socket.write_n_loop in_error fuel n (size_add nx v) m'
         | None => (Refused, m')
         end
  else (Returned (Ok nx), m).
Proof.
  cbn [stream_socket.write_n_loop]. destruct (nx <? n); [|reflexivity].
  unfold bind_M at 1. destruct (stream_socket.write (n - nx) m) as [res m'].
  cbn [fst snd]. unfold ret.
  destruct (negb (is_ok res) && negb (is_errc res errc.interrupted));
    [reflexivity|].
  destruct (stream_socket.value in_error res); reflexivity.
Qed.

Lemma size_add_0 (nx : Z) : 0 <= nx < 2 ^ 64 -> size_add nx 0 = nx.
Proof.
  intros H. unfold size_add. rewrite Z.add_0_r. apply Z.mod_small. exact H.
Qed.

Lemma guard_of_failure (e : positive) :
  negb (is_ok (check_res (Failed e)))
  && negb (is_errc (check_res (Failed e)) errc.interrupted)
  = negb (Pos.eqb e errc.interrupted).
Proof.
  unfold is_errc. simpl. reflexivity.
Qed.

Lemma read_n_loop_not_interrupted in_error fuel : forall n nx m,
  fst (stream_socket.read_n_loop in_error fuel n nx m)
  <> Returned (Err (Z.pos errc.interrupted)).
Proof.
  induction fuel as [|fuel IH]; intros n nx m; [discriminate|].
  rewrite read_n_loop_step. destruct (nx <? n); [|discriminate].
  cbv zeta. rewrite read_unfold. cbv zeta. cbn [fst snd].
  destruct (clamp _ (script m (cursor m))) as [v|e] eqn:Hr.
  - simpl. apply IH.
  - rewrite guard_of_failure. destruct (Pos.eqb_spec e errc.interrupted) as [->|Hne].
    + simpl. destruct (in_error _); [apply IH|discriminate].
    + simpl. intros Heq. injection Heq as Heq. congruence.
Qed.

Lemma write_n_loop_not_interrupted in_error fuel : forall n nx m,
  fst (stream_socket.write_n_loop in_error fuel n nx m)
  <> Returned (Err (Z.pos errc.interrupted)).
Proof.
  induction fuel as [|fuel IH]; intros n nx m; [discriminate|].
  rewrite write_n_loop_step. destruct (nx <? n); [|discriminate].
  cbv zeta. rewrite write_unfold. cbv zeta. cbn [fst snd].
  destruct (clamp _ (script m (cursor m))) as [v|e] eqn:Hr.
  - simpl. apply IH.
  - rewrite guard_of_failure. destruct (Pos.eqb_spec e errc.interrupted) as [->|Hne].
    + simpl. destruct (in_error _); [apply IH|discriminate].
    + simpl. intros Heq. injection Heq as Heq. congruence.
Qed.

(** C6. In [read_n] and [write_n] an interrupted error never reaches the
    caller; when the single call is interrupted the loop goes round again
    from the very same position (same count [nx], hence same buffer offset
    and same remaining length), the value read off the interrupted result
    being the default [0]; any other error ends the loop at once and is
    what the caller gets, whatever the count [nx] reached so far. *)
Theorem interrupted_absorbed_others_abort
    (in_error : error_code -> option Z) (fuel : nat) (n nx : Z) (m : machine) :
  in_error (Z.pos errc.interrupted) = Some 0 ->
  0 <= nx < n -> n < 2 ^ 64 ->
  (fst (stream_socket.read_n_loop in_error fuel n nx m)
     <> Returned (Err (Z.pos errc.interrupted))
   /\ fst (stream_socket.write_n_loop in_error fuel n nx m)
     <> Returned (Err (Z.pos errc.interrupted)))
  /\ (script m (cursor m) = Failed errc.interrupted ->
      stream_socket.read_n_loop in_error (S fuel) n nx m
      = stream_socket.read_n_loop in_error fuel n nx
          (snd (stream_socket.read (n - nx) m))
      /\ stream_socket.write_n_loop in_error (S fuel) n nx m
         = stream_socket.write_n_loop in_error fuel n nx
             (snd (stream_socket.write (n - nx) m)))
  /\ (forall e, e <> errc.interrupted ->
      script m (cursor m) = Failed e ->
      stream_socket.read_n_loop in_error (S fuel) n nx m
      = (Returned (Err (Z.pos e)), snd (stream_socket.read (n - nx) m))
      /\ stream_socket.write_n_loop in_error (S fuel) n nx m
         = (Returned (Err (Z.pos e)), snd (stream_socket.write (n - nx) m))).
Proof.
  intros Hval Hnx Hn.
  assert (Hlt : (nx <? n) = true) by (apply Z.ltb_lt; lia).
  split; [split; [apply read_n_loop_not_interrupted
                 | apply write_n_loop_not_interrupted]|].
  split.
  - intros Hs. rewrite read_n_loop_step, write_n_loop_step, Hlt. cbv zeta.
    rewrite read_unfold, write_unfold. cbv zeta. cbn [fst snd].
    rewrite Hs. cbn [clamp]. rewrite guard_of_failure. simpl negb.
    cbn [check_res stream_socket.value]. rewrite Hval.
    rewrite size_add_0 by lia. split; reflexivity.
  - intros e Hne Hs. rewrite read_n_loop_step, write_n_loop_step, Hlt.
    cbv zeta. rewrite read_unfold, write_unfold. cbv zeta. cbn [fst snd].
    rewrite Hs. cbn [clamp]. rewrite guard_of_failure.
    destruct (Pos.eqb_spec e errc.interrupted) as [Heq|_]; [contradiction|].
    simpl. split; reflexivity.
Qed.

Lemma interrupted_absorbed_others_abort_witness :
  stream_socket.read_n_loop unchecked 2 8 3
    (boot Posix 5 [Failed errc.interrupted; Done 5] (Done 0))
  = stream_socket.read_n_loop unchecked 1 8 3
      (snd (stream_socket.read (8 - 3)
              (boot Posix 5 [Failed errc.interrupted; Done 5] (Done 0))))
  /\ fst (stream_socket.write_n_loop unchecked 1 8 3
            (boot Posix 5 [Failed errc.connection_refused] (Done 0)))
     = Returned (Err 111).
Proof.
  split.
  - apply (interrupted_absorbed_others_abort unchecked 1 8 3
             (boot Posix 5 [Failed errc.interrupted; Done 5] (Done 0)));
      [reflexivity | lia | reflexivity | reflexivity].
  - destruct (interrupted_absorbed_others_abort unchecked 0 8 3
                (boot Posix 5 [Failed errc.connection_refused] (Done 0)))
      as (_ & _ & Habort); [reflexivity | lia | reflexivity |].
    destruct (Habort errc.connection_refused) as [_ Hw];
      [discriminate | reflexivity |].
    rewrite Hw. reflexivity.
Defined.

(** C7 as stated fails: with an accessor that hands out a value in the
    success state only, a single interrupted call makes both loops stop in
    [Refused]: [value()] was called on an error-state result. *)
Lemma value_taken_from_interrupted_result :
  fst (stream_socket.read_n checked 2 1
         (boot Posix 5 [Failed errc.interrupted; Done 1] (Done 0))) = Refused
  /\ fst (stream_socket.write_n checked 2 1
            (boot Posix 5 [Failed errc.interrupted; Done 1] (Done 0))) = Refused.
Proof. split; reflexivity. Qed.

Lemma read_n_loop_not_refused in_error fuel :
  in_error (Z.pos errc.interrupted) <> None ->
  forall n nx m,
    fst (stream_socket.read_n_loop in_error fuel n nx m) <> Refused.
Proof.
  intros Hacc. induction fuel as [|fuel IH]; intros n nx m; [discriminate|].
  rewrite read_n_loop_step. destruct (nx <? n); [|discriminate].
  cbv zeta. rewrite read_unfold. cbv zeta. cbn [fst snd].
  destruct (clamp _ (script m (cursor m))) as [v|e] eqn:Hr.
  - simpl. apply IH.
  - rewrite guard_of_failure.
    destruct (Pos.eqb_spec e errc.interrupted) as [->|Hne]; [|discriminate].
    simpl. destruct (in_error _) eqn:Hi; [apply IH|contradiction].
Qed.

Lemma write_n_loop_not_refused in_error fuel :
  in_error (Z.pos errc.interrupted) <> None ->
  forall n nx m,
    fst (stream_socket.write_n_loop in_error fuel n nx m) <> Refused.
Proof.
  intros Hacc. induction fuel as [|fuel IH]; intros n nx m; [discriminate|].
  rewrite write_n_loop_step. destruct (nx <? n); [|discriminate].
  cbv zeta. rewrite write_unfold. cbv zeta. cbn [fst snd].
  destruct (clamp _ (script m (cursor m))) as [v|e] eqn:Hr.
  - simpl. apply IH.
  - rewrite guard_of_failure.
    destruct (Pos.eqb_spec e errc.interrupted) as [->|Hne]; [|discriminate].
    simpl. destruct (in_error _) eqn:Hi; [apply IH|contradiction].
Qed.

(** C7, amended.  In [read_n] and [write_n] the success value is taken from
    a result that is in the success state or is the interrupted error, and
    from no other: an accessor that refuses every error result except the
    interrupted one is never seen to refuse. *)
Theorem value_taken_on_success_or_interrupted
    (in_error : error_code -> option Z) (fuel : nat) (n : Z) (m : machine) :
  in_error (Z.pos errc.interrupted) <> None ->
  fst (stream_socket.read_n in_error fuel n m) <> Refused
  /\ fst (stream_socket.write_n in_error fuel n m) <> Refused.
Proof.
  intros Hacc. split.
  - apply read_n_loop_not_refused, Hacc.
  - apply write_n_loop_not_refused, Hacc.
Qed.

Lemma value_taken_on_success_or_interrupted_witness :
  fst (stream_socket.read_n interrupted_only 3 1
         (boot Posix 5 [Failed errc.interrupted; Done 1] (Done 0))) <> Refused
  /\ fst (stream_socket.write_n interrupted_only 3 1
            (boot Posix 5 [Failed errc.interrupted; Done 1] (Done 0))) <> Refused.
Proof.
  apply (value_taken_on_success_or_interrupted interrupted_only 3 1
           (boot Posix 5 [Failed errc.interrupted; Done 1] (Done 0))).
  discriminate.
Defined.

(** ** Termination of [read_n] *)

Lemma read_n_loop_spins in_error (n : Z) :
  0 < n ->
  forall fuel m,
    (forall i,
        clamp (len_on m n) (script m i) = Done 0
        \/ (script m i = Failed errc.interrupted
            /\ in_error (Z.pos errc.interrupted) = Some 0)) ->
    fst (stream_socket.read_n_loop in_error fuel n 0 m) = Spinning.
Proof.
  intros Hn. apply Z.ltb_lt in Hn.
  induction fuel as [|fuel IH]; intros m Hs; [reflexivity|].
  rewrite read_n_loop_step, Hn. cbv zeta.
  rewrite read_unfold. cbv zeta. cbn [fst snd]. rewrite Z.sub_0_r.
  destruct (Hs (cursor m)) as [Hz | [Hi Hacc]].
  - rewrite Hz. simpl. apply IH. exact Hs.
  - rewrite Hi. cbn [clamp]. rewrite guard_of_failure. simpl.
    rewrite Hacc. apply IH. exact Hs.
Qed.

(** C5 as stated fails: once the peer has closed, every read is a
    zero-length success, and [read_n(buf, 1)] never returns, whatever the
    fuel; the same holds when every read is interrupted, and in the Windows
    build for [n = 2^32], where [int(n)] asks the kernel for no bytes at
    all although five are waiting. *)
Lemma read_n_never_returns_after_peer_close :
  ~ (exists fuel r,
        fst (stream_socket.read_n unchecked fuel 1 (boot Posix 5 [] (Done 0)))
        = Returned r)
  /\ ~ (exists fuel r,
          fst (stream_socket.read_n unchecked fuel 1
                 (boot Posix 5 [] (Failed errc.interrupted)))
          = Returned r)
  /\ ~ (exists fuel r,
          fst (stream_socket.read_n unchecked fuel (2 ^ 32)
                 (boot Windows 5 [] (Done 5)))
          = Returned r).
Proof.
  split; [|split]; intros (fuel & r & H); unfold stream_socket.read_n in H;
    rewrite read_n_loop_spins in H; try discriminate; try reflexivity.
  - intros i. left. simpl. destruct i; reflexivity.
  - intros i. right. split; [|reflexivity]. simpl. destruct i; reflexivity.
  - intros i. left. simpl. destruct i; reflexivity.
Qed.

Lemma len_on_small (m : machine) (x : Z) :
  0 <= x -> (host m = Windows -> x < 2 ^ 31) -> len_on m x = x.
Proof.
  intros Hx Hw. unfold len_on. destruct (host m); [reflexivity|].
  unfold to_int. specialize (Hw eq_refl).
  rewrite Z.mod_small by lia. lia.
Qed.

Lemma read_n_loop_returns in_error (n : Z) (q : nat) :
  in_error (Z.pos errc.interrupted) = Some 0 ->
  n < 2 ^ 64 ->
  forall fuel nx m,
    0 <= nx <= n ->
    (host m = Windows -> n < 2 ^ 31) ->
    (forall i, (q <= i)%nat -> stalls (script m i) = false) ->
    (Z.to_nat (n - nx) + (q - cursor m) < fuel)%nat ->
    exists r,
      fst (stream_socket.read_n_loop in_error fuel n nx m) = Returned r
      /\ read_n_answer m (cursor m) n r.
Proof.
  intros Hacc Hn. induction fuel as [|fuel IH]; intros nx m Hnx Hw Hev Hfuel;
    [lia|].
  rewrite read_n_loop_step. destruct (Z.ltb_spec nx n) as [Hlt|Hge].
  2:{ exists (Ok nx). split; [reflexivity|]. left. f_equal. lia. }
  cbv zeta. rewrite read_unfold. cbv zeta. cbn [fst snd].
  rewrite len_on_small by (try lia; intros Hh; specialize (Hw Hh); lia).
  set (m' := after_call _ _ m).
  assert (Hm' : script m' = script m /\ host m' = host m
                /\ cursor m' = S (cursor m)) by (repeat split).
  destruct Hm' as (Hsc & Hho & Hcu).
  assert (Hshift : forall r, read_n_answer m' (cursor m') n r ->
                        aborts (script m (cursor m)) = false ->
                        read_n_answer m (cursor m) n r).
  { intros r [Hok | (e & k & He & Hk & Hne & Hbefore)] Hhere; [left; exact Hok|].
    right. exists e, (S k). rewrite Hsc, Hcu in *.
    replace (cursor m + S k)%nat with (S (cursor m) + k)%nat by lia.
    repeat split; try assumption.
    intros j Hj. destruct j as [|j].
    - rewrite Nat.add_0_r. exact Hhere.
    - replace (cursor m + S j)%nat with (S (cursor m) + j)%nat by lia.
      apply Hbefore. lia. }
  destruct (script m (cursor m)) as [v|e] eqn:Hs.
  - (* a successful read of [min v (n - nx)] bytes *)
    cbn [clamp check_res is_ok negb andb stream_socket.value].
    assert (Hadd : size_add nx (Z.of_N (N.min v (Z.to_N (n - nx))))
                   = nx + Z.of_N (N.min v (Z.to_N (n - nx)))).
    { unfold size_add. apply Z.mod_small. lia. }
    rewrite Hadd.
    destruct (IH (nx + Z.of_N (N.min v (Z.to_N (n - nx)))) m') as (r & Hr & Hans).
    + lia.
    + rewrite Hho. exact Hw.
    + rewrite Hsc. exact Hev.
    + rewrite Hcu. destruct (N.eq_dec v 0%N) as [-> | Hv].
      * (* a stall: it must lie before position [q] *)
        assert (cursor m < q)%nat.
        { destruct (Nat.lt_ge_cases (cursor m) q) as [?|Hle]; [assumption|].
          specialize (Hev _ Hle). rewrite Hs in Hev. discriminate. }
        rewrite N.min_0_l. simpl Z.of_N. rewrite Z.add_0_r. lia.
      * assert (1 <= Z.of_N (N.min v (Z.to_N (n - nx)))) by lia. lia.
    + exists r. split; [exact Hr|]. apply Hshift; [exact Hans|reflexivity].
  - cbn [clamp]. rewrite guard_of_failure.
    destruct (Pos.eqb_spec e errc.interrupted) as [-> | Hne].
    + (* interrupted: retried from the same count *)
      cbn [negb check_res stream_socket.value]. rewrite Hacc.
      rewrite size_add_0 by lia.
      destruct (IH nx m') as (r & Hr & Hans).
      * lia.
      * rewrite Hho. exact Hw.
      * rewrite Hsc. exact Hev.
      * rewrite Hcu.
        assert (cursor m < q)%nat.
        { destruct (Nat.lt_ge_cases (cursor m) q) as [?|Hle]; [assumption|].
          specialize (Hev _ Hle). rewrite Hs in Hev. discriminate. }
        lia.
      * exists r. split; [exact Hr|]. apply Hshift; [exact Hans|reflexivity].
    + (* any other error ends the loop *)
      cbn [negb check_res error fst].
      exists (Err (Z.pos e)). split; [reflexivity|].
      right. exists e, 0%nat. rewrite Nat.add_0_r.
      repeat split; try assumption. intros j Hj. lia.
Qed.

(** C5, amended.  For every [n >= 0] (below [2^31] where the Windows
    build narrows the length to [int]) and every sequence of read outcomes
    that holds only finitely many zero-length successes and interrupted
    errors, [read_n(buf, n)] returns, and what it returns is exactly [n] or
    the first error that is not "interrupted".  The value read off an
    interrupted result is taken to be the default [0]. *)
Theorem read_n_terminates
    (in_error : error_code -> option Z) (n : Z) (q : nat) (m : machine) :
  in_error (Z.pos errc.interrupted) = Some 0 ->
  0 <= n < 2 ^ 64 ->
  (host m = Windows -> n < 2 ^ 31) ->
  (forall i, (q <= i)%nat -> stalls (script m i) = false) ->
  exists fuel r,
    fst (stream_socket.read_n in_error fuel n m) = Returned r
    /\ read_n_answer m (cursor m) n r.
Proof.
  intros Hacc Hn Hw Hev.
  exists (S (Z.to_nat n + (q - cursor m)))%nat.
  destruct (read_n_loop_returns in_error n q Hacc (proj2 Hn)
              (S (Z.to_nat n + (q - cursor m)))%nat 0 m) as (r & Hr & Hans);
    try assumption; try lia.
  exists r. split; assumption.
Qed.

Lemma read_n_terminates_witness :
  exists fuel r,
    fst (stream_socket.read_n unchecked fuel 4
           (boot Posix 5 [Done 0; Failed errc.interrupted; Done 3; Done 9]
              (Done 1)))
    = Returned r
    /\ read_n_answer
         (boot Posix 5 [Done 0; Failed errc.interrupted; Done 3; Done 9] (Done 1))
         0 4 r.
Proof.
  apply (read_n_terminates unchecked 4 2
           (boot Posix 5 [Done 0; Failed errc.interrupted; Done 3; Done 9]
              (Done 1))).
  - reflexivity.
  - lia.
  - discriminate.
  - intros i Hi. simpl.
    destruct i as [|[|[|[|i]]]]; try lia; try reflexivity.
    destruct i; reflexivity.
Defined.

(** * The timed connect *)

Lemma ask_eq (c : syscall) (m : machine) :
  ask c m = (script m (cursor m), after_call c (script m (cursor m)) m).
Proof. reflexivity. Qed.

Lemma wait_ready_eq (timeout : Z) (m : machine) :
  connector.wait_ready timeout m
  = ask (SysWait (handle_ m) (bound_on m timeout)) m.
Proof.
  unfold connector.wait_ready, bound_on. destruct (host m); reflexivity.
Qed.

Lemma connect_timeout_stretches (family timeout : Z) (m : machine) :
  0 < timeout ->
  connector.connect_timeout family timeout m =
  match connector.recreate family m with
  | (Err e, m1) => (Err e, m1)
  | (Ok _, m1) =>
      match enter_non_blocking m1 with
      | (nb, m2) =>
          match attempt family timeout m2 with
          | (res, m3) => leave nb res m3
          end
      end
  end.
Proof.
  intros Hpos. apply Z.leb_gt in Hpos.
  unfold connector.connect_timeout. rewrite Hpos.
  unfold bind_M at 1.
  destruct (connector.recreate family m) as [[u|e] m1]; [|reflexivity].
  cbn [is_ok negb].
  unfold enter_non_blocking, attempt, leave, bind_M, ret, socket.handle.
  destruct (host m1); crunch.
Qed.

Lemma in_flight_dec (e : positive) :
  ((Z.pos e =? Z.pos errc.operation_in_progress)
   || (Z.pos e =? Z.pos errc.operation_would_block)) = true <-> in_flight e.
Proof.
  unfold in_flight. rewrite orb_true_iff, !Z.eqb_eq. split.
  - intros [H|H]; injection H as ->; [left|right]; reflexivity.
  - intros [->| ->]; [left|right]; reflexivity.
Qed.

Lemma attempt_spec (family timeout : Z) (m : machine) :
  exists evs,
    attempt_run (handle_ m) family (bound_on m timeout) evs
      (fst (attempt family timeout m))
    /\ same_table m (snd (attempt family timeout m))
    /\ trace (snd (attempt family timeout m)) = trace m ++ evs.
Proof.
  unfold attempt, socket.get_option.
  unfold socket.handle, bind_M, ret.
  rewrite ask_eq.
  destruct (script m (cursor m)) as [v|e] eqn:H1; cbn [check_res is_ok negb error].
  { eexists. split; [apply run_connected|].
    split; [repeat split|reflexivity]. }
  destruct ((Z.pos e =? Z.pos errc.operation_in_progress)
            || (Z.pos e =? Z.pos errc.operation_would_block)) eqn:Hfl.
  2:{ eexists. split; [apply run_failed|].
      - rewrite <- in_flight_dec, Hfl. discriminate.
      - split; [repeat split|reflexivity]. }
  apply in_flight_dec in Hfl.
  rewrite wait_ready_eq, ask_eq.
  change (bound_on (after_call _ _ m) timeout) with (bound_on m timeout).
  cbn [after_call handle_ script cursor].
  destruct (script m (S (cursor m))) as [k|e'] eqn:H2; cbn [check_res].
  2:{ eexists. split; [apply (run_wait_failed _ _ _ e e'); exact Hfl|].
      split; [repeat split|cbn [after_call trace fst snd]; rewrite <- ?app_assoc; reflexivity]. }
  destruct (N.eq_dec k 0%N) as [->|Hk].
  { cbn. eexists. split; [apply (run_timed_out _ _ _ e); exact Hfl|].
    split; [repeat split|cbn [after_call trace fst snd]; rewrite <- ?app_assoc; reflexivity]. }
  assert (Hgt : (Z.of_N k >? 0) = true) by (apply Z.gtb_lt; lia).
  rewrite Hgt, ask_eq. cbn [after_call host handle_ script cursor trace fst snd].
  destruct (script m (S (S (cursor m)))) as [p|e3] eqn:H3;
    cbn [check_res is_ok error fst snd host handle_ script cursor trace].
  - eexists. split; [apply (run_ready _ _ _ e k p); assumption|].
    split; [repeat split|cbn [after_call trace fst snd]; rewrite <- ?app_assoc; reflexivity].
  - eexists. split; [apply (run_ready_unread _ _ _ e k e3); assumption|].
    split; [repeat split|cbn [after_call trace fst snd]; rewrite <- ?app_assoc; reflexivity].
Qed.

Lemma mode_changes_app h evs1 evs2 :
  mode_changes h (evs1 ++ evs2) = mode_changes h evs1 ++ mode_changes h evs2.
Proof. apply omap_app. Qed.

Lemma lifecycle_outside evs :
  Forall (fun ev => lifecycle_call (fst ev) = true) evs -> outside_attempt evs.
Proof.
  unfold outside_attempt. induction 1 as [|[c r] evs Hc _ IH]; constructor.
  - cbn [fst] in *. destruct c; try discriminate Hc; reflexivity.
  - exact IH.
Qed.

Lemma lifecycle_no_mode_change h evs :
  Forall (fun ev => lifecycle_call (fst ev) = true) evs -> mode_changes h evs = [].
Proof.
  induction 1 as [|[c r] evs Hc _ IH]; [reflexivity|].
  unfold mode_changes in *. cbn [omap list_omap]. cbn [fst] in Hc.
  destruct c; try discriminate Hc; cbn [mode_change]; exact IH.
Qed.

Lemma attempt_run_no_mode_change h family b evs res h' :
  attempt_run h family b evs res -> mode_changes h' evs = [].
Proof. destruct 1; reflexivity. Qed.

Lemma land_lor_bit (x b : Z) : Z.land (Z.lor x b) b = b.
Proof.
  apply Z.bits_inj'. intros i _. rewrite Z.land_spec, Z.lor_spec.
  destruct (Z.testbit x i), (Z.testbit b i); reflexivity.
Qed.

Lemma land_clear_bit (x b : Z) : Z.land (Z.land x (Z.lnot b)) b = 0.
Proof.
  rewrite <- Z.land_assoc, (Z.land_comm (Z.lnot b) b), Z.land_lnot_diag.
  apply Z.land_0_r.
Qed.

Lemma recreate_failed family m e :
  script m (cursor m) = Failed e ->
  connector.recreate family m
  = (Err (Z.pos e), after_call (SysSocket family) (Failed e) m).
Proof.
  intros Hs. unfold connector.recreate, connector.create_handle, sys_socket,
    bind_M, ret.
  rewrite ask_eq, Hs. reflexivity.
Qed.

Lemma recreate_done family m v :
  script m (cursor m) = Done v ->
  exists m1 evs,
    connector.recreate family m = (Ok tt, m1)
    /\ handle_ m1 = Z.of_N v /\ Z.of_N v ∈ fds m1
    /\ flags_of m1 (Z.of_N v) = O_RDWR
    /\ host m1 = host m /\ script m1 = script m
    /\ trace m1 = trace m ++ evs
    /\ Forall (fun ev => lifecycle_call (fst ev) = true) evs.
Proof.
  intros Hs. unfold connector.recreate, connector.create_handle, sys_socket,
    bind_M, ret.
  rewrite ask_eq, Hs. cbn [check_socket check_res].
  unfold socket.reset, socket.handle, bind_M, ret.
  pj.
  assert (Hnew : forall s : gset Z, Z.of_N v ∈ {[Z.of_N v]} ∪ s).
  { intros s. apply elem_of_union_l, elem_of_singleton. reflexivity. }
  destruct (Z.eqb_spec (Z.of_N v) (handle_ m)) as [Heq|Hne]; cbn [negb].
  - eexists _, [_]. split; [reflexivity|].
    pj.
    refine (conj _ (conj (Hnew _) (conj _ (conj eq_refl (conj eq_refl
              (conj eq_refl _)))))).
    + symmetry. exact Heq.
    + unfold flags_of. pj. rewrite lookup_insert_eq. reflexivity.
    + repeat constructor.
  - destruct (Z.eqb_spec (handle_ m) INVALID_SOCKET) as [Hinv|Hval]; cbn [negb].
    + eexists _, [_]. split; [reflexivity|].
      pj.
      refine (conj eq_refl (conj (Hnew _) (conj _ (conj eq_refl (conj eq_refl
                (conj eq_refl _)))))).
      * unfold flags_of. pj. rewrite lookup_insert_eq. reflexivity.
      * repeat constructor.
    + unfold socket.close_handle, sys_close, bind_M, ret.
      pj.
      destruct (decide (handle_ m ∈ {[Z.of_N v]} ∪ fds m)) as [Hin|Hout].
      * rewrite ask_eq.
        pj.
        eexists _, [_; _]. split; [reflexivity|].
        pj.
        refine (conj eq_refl (conj _ (conj _ (conj eq_refl (conj eq_refl
                  (conj _ _)))))).
        -- apply elem_of_difference. split; [apply Hnew|].
           rewrite elem_of_singleton. exact Hne.
        -- unfold flags_of. pj.
           rewrite lookup_delete_ne by (intros H; apply Hne; symmetry; exact H).
           rewrite lookup_insert_eq. reflexivity.
        -- rewrite <- app_assoc. reflexivity.
        -- repeat constructor.
      * unfold note.
        pj.
        eexists _, [_; _]. split; [reflexivity|].
        pj.
        refine (conj eq_refl (conj (Hnew _) (conj _ (conj eq_refl (conj eq_refl
                  (conj _ _)))))).
        -- unfold flags_of. pj. rewrite lookup_insert_eq. reflexivity.
        -- rewrite <- app_assoc. reflexivity.
        -- repeat constructor.
Qed.

Lemma set_non_blocking_open (on : bool) (m : machine) :
  handle_ m ∈ fds m ->
  exists fl evs,
    socket.set_non_blocking on m
    = (Ok tt, Machine (handle_ m) (host m) (fds m)
                (<[handle_ m := fl]> (flags m)) (script m) (cursor m)
                (trace m ++ evs))
    /\ outside_attempt evs
    /\ mode_changes (handle_ m) evs = [on]
    /\ (on = false -> Z.land fl O_NONBLOCK = 0).
Proof.
  intros Hin. unfold socket.set_non_blocking.
  destruct (host m) eqn:Hh.
  - unfold socket.set_flag, socket.get_flags, socket.set_flags, socket.handle,
      sys_getfl, sys_setfl, note, bind_M, ret.
    repeat first [ rewrite decide_True by exact Hin
                 | progress pj
                 | progress cbn [check_res check_res_none is_ok] ].
    rewrite Hh.
    eexists _, [_; _]. split; [rewrite <- app_assoc; reflexivity|].
    split; [repeat constructor|]. split.
    + unfold mode_changes. cbn [omap list_omap mode_change].
      rewrite Z.eqb_refl. destruct on.
      * rewrite land_lor_bit. reflexivity.
      * rewrite land_clear_bit. reflexivity.
    + intros ->. apply land_clear_bit.
  - unfold socket.handle, sys_ioctl_fionbio, note, bind_M, ret.
    repeat first [ rewrite decide_True by exact Hin
                 | progress pj
                 | progress cbn [check_res check_res_none is_ok] ].
    rewrite Hh.
    eexists _, [_]. split; [reflexivity|].
    split; [repeat constructor|]. split.
    + unfold mode_changes. cbn [omap list_omap mode_change].
      rewrite Z.eqb_refl. destruct on; reflexivity.
    + intros ->. cbn [Z.eqb]. apply land_clear_bit.
Qed.

Lemma enter_spec (m : machine) :
  handle_ m ∈ fds m ->
  flags_of m (handle_ m) = O_RDWR ->
  exists m2 evs,
    enter_non_blocking m = (false, m2)
    /\ handle_ m2 = handle_ m /\ fds m2 = fds m /\ host m2 = host m
    /\ script m2 = script m /\ cursor m2 = cursor m
    /\ trace m2 = trace m ++ evs /\ outside_attempt evs
    /\ mode_changes (handle_ m) evs = [true].
Proof.
  intros Hin Hfl. unfold enter_non_blocking. unfold bind_M at 1.
  destruct (host m) eqn:Hh.
  - unfold socket.is_non_blocking, socket.get_flags, socket.handle, sys_getfl,
      note, bind_M, ret.
    rewrite decide_True by exact Hin.
    rewrite Hfl. pj. cbn [check_res].
    change (Z.land (Z.of_N (Z.to_N O_RDWR)) O_NONBLOCK =? 0) with true.
    cbn [negb]. cbv beta.
    match goal with
    | |- context [socket.set_non_blocking true ?m'] =>
        destruct (set_non_blocking_open true m' Hin)
          as (fl & evs & Heq & Hout & Hmode & _);
        rewrite Heq
    end.
    pj. eexists _, (_ :: evs). split; [reflexivity|]. pj.
    refine (conj eq_refl (conj eq_refl (conj Hh (conj eq_refl (conj eq_refl
              (conj _ (conj _ _))))))).
    + rewrite <- app_assoc. reflexivity.
    + constructor; [reflexivity|exact Hout].
    + exact Hmode.
  - unfold ret at 1. cbn [negb]. unfold bind_M, ret.
    destruct (set_non_blocking_open true m Hin)
      as (fl & evs & Heq & Hout & Hmode & _).
    rewrite Heq. eexists _, evs. split; [reflexivity|]. pj.
    refine (conj eq_refl (conj eq_refl (conj Hh (conj eq_refl (conj eq_refl
              (conj eq_refl (conj Hout Hmode))))))).
Qed.

Lemma leave_failed (nb : bool) (e : error_code) (m : machine) :
  handle_ m <> INVALID_SOCKET ->
  exists m4 r,
    leave nb (Err e) m = (Err e, m4)
    /\ handle_ m4 = INVALID_SOCKET /\ (handle_ m ∉ fds m4)
    /\ trace m4 = trace m ++ [(SysClose (handle_ m), r)].
Proof.
  intros Hval. unfold leave. cbn [is_ok negb error]. unfold bind_M, ret.
  destruct (close_valid_trace m Hval) as (r & Htr & _ & Hgone).
  pose proof (close_leaves_invalid m) as Hinv.
  destruct (socket.close m) as [x m4]. cbn [fst snd] in *.
  exists m4, r. repeat split; assumption.
Qed.

Lemma leave_connected (v : Z) (m : machine) :
  handle_ m ∈ fds m ->
  exists m4 evs,
    leave false (Ok v) m = (Ok tt, m4)
    /\ handle_ m4 = handle_ m
    /\ handle_ m ∈ fds m4
    /\ Z.land (flags_of m4 (handle_ m)) O_NONBLOCK = 0
    /\ trace m4 = trace m ++ evs /\ outside_attempt evs
    /\ mode_changes (handle_ m) evs = [false].
Proof.
  intros Hin. unfold leave. cbn [is_ok negb]. unfold bind_M, ret.
  destruct (set_non_blocking_open false m Hin)
    as (fl & evs & Heq & Hout & Hmode & Hbit).
  rewrite Heq. eexists _, evs. split; [reflexivity|]. pj.
  refine (conj eq_refl (conj Hin (conj _ (conj eq_refl (conj Hout Hmode))))).
  unfold flags_of. pj. rewrite lookup_insert_eq. apply Hbit. reflexivity.
Qed.

Lemma verdict_ok (res : result Z) : is_ok (verdict res) = is_ok res.
Proof. destruct res; reflexivity. Qed.

(** What a timed connect does once the OS has granted the descriptor
    [Z.of_N v]. *)
Lemma connect_timeout_summary (family timeout : Z) (m : machine) (v : N) :
  0 < timeout ->
  script m (cursor m) = Done v ->
  exists pre evs post res m4,
    connector.connect_timeout family timeout m = (verdict res, m4)
    /\ trace m4 = trace m ++ pre ++ evs ++ post
    /\ outside_attempt pre /\ outside_attempt post
    /\ attempt_run (Z.of_N v) family (bound_on m timeout) evs res
    /\ (is_ok res = false ->
        handle_ m4 = INVALID_SOCKET /\ (Z.of_N v ∉ fds m4)
        /\ (exists r, post = [(SysClose (Z.of_N v), r)])
        /\ mode_changes (Z.of_N v) (pre ++ evs ++ post) = [true])
    /\ (is_ok res = true ->
        handle_ m4 = Z.of_N v /\ Z.of_N v ∈ fds m4
        /\ Z.land (flags_of m4 (Z.of_N v)) O_NONBLOCK = 0
        /\ mode_changes (Z.of_N v) (pre ++ evs ++ post) = [true; false]).
Proof.
  intros Hpos Hs. rewrite connect_timeout_stretches by exact Hpos.
  destruct (recreate_done family m v Hs)
    as (m1 & evA & -> & Hh1 & Hin1 & Hfl1 & Hho1 & Hsc1 & Htr1 & HevA).
  rewrite <- Hh1 in Hin1, Hfl1.
  destruct (enter_spec m1 Hin1 Hfl1)
    as (m2 & evB & -> & Hh2 & Hfd2 & Hho2 & Hsc2 & Hcu2 & Htr2 & HevB & HmodeB).
  destruct (attempt_spec family timeout m2) as (evC & Hrun & Hsame & Htr3).
  destruct (attempt family timeout m2) as [res m3]. cbn [fst snd] in *.
  destruct Hsame as (Hh3 & Hho3 & Hfd3 & Hfl3 & Hsc3).
  assert (Hb : bound_on m2 timeout = bound_on m timeout).
  { unfold bound_on. rewrite Hho2, Hho1. reflexivity. }
  rewrite Hb, Hh2, Hh1 in Hrun.
  assert (Hh : handle_ m3 = Z.of_N v) by congruence.
  assert (Hmode0 : mode_changes (Z.of_N v) (evA ++ evB) = [true]).
  { rewrite mode_changes_app, (lifecycle_no_mode_change _ _ HevA).
    rewrite <- Hh1. exact HmodeB. }
  destruct res as [k|e].
  - assert (Hin3 : handle_ m3 ∈ fds m3).
    { rewrite Hh3, Hfd3, Hfd2, Hh2. exact Hin1. }
    destruct (leave_connected k m3 Hin3)
      as (m4 & evD & -> & Hh4 & Hin4 & Hbit & Htr4 & HevD & HmodeD).
    exists (evA ++ evB), evC, evD, (Ok k), m4.
    split; [reflexivity|]. split.
    { rewrite Htr4, Htr3, Htr2, Htr1, <- !app_assoc. reflexivity. }
    split.
    { apply Forall_app. split; [apply lifecycle_outside, HevA|exact HevB]. }
    split; [exact HevD|]. split; [exact Hrun|].
    split; [discriminate|]. intros _.
    rewrite Hh in *.
    split; [exact Hh4|]. split; [exact Hin4|]. split; [exact Hbit|].
    rewrite app_assoc, !mode_changes_app, <- mode_changes_app, Hmode0.
    rewrite (attempt_run_no_mode_change _ _ _ _ _ _ Hrun), HmodeD. reflexivity.
  - assert (Hval : handle_ m3 <> INVALID_SOCKET).
    { rewrite Hh. unfold INVALID_SOCKET. lia. }
    destruct (leave_failed false e m3 Hval)
      as (m4 & r & -> & Hh4 & Hgone & Htr4).
    exists (evA ++ evB), evC, [(SysClose (handle_ m3), r)], (Err e), m4.
    split; [reflexivity|]. split.
    { rewrite Htr4, Htr3, Htr2, Htr1, <- !app_assoc. reflexivity. }
    split.
    { apply Forall_app. split; [apply lifecycle_outside, HevA|exact HevB]. }
    split; [repeat constructor|]. split; [exact Hrun|].
    split; [|discriminate]. intros _.
    rewrite Hh in *.
    split; [exact Hh4|]. split; [exact Hgone|]. split; [exists r; reflexivity|].
    rewrite app_assoc, !mode_changes_app, <- mode_changes_app, Hmode0.
    rewrite (attempt_run_no_mode_change _ _ _ _ _ _ Hrun). reflexivity.
Qed.

Lemma in_attempt_part (x : event) (pre evs post : list event) :
  attempt_call (fst x) = true ->
  outside_attempt pre -> outside_attempt post ->
  In x (pre ++ evs ++ post) -> In x evs.
Proof.
  unfold outside_attempt. intros Hx Hpre Hpost Hin.
  rewrite !in_app_iff in Hin. destruct Hin as [Hin|[Hin|Hin]].
  - rewrite Forall_forall in Hpre. apply list_elem_of_In in Hin.
    specialize (Hpre _ Hin). congruence.
  - exact Hin.
  - rewrite Forall_forall in Hpost. apply list_elem_of_In in Hin.
    specialize (Hpost _ Hin). congruence.
Qed.

(** A timed connect whose [::socket] fails makes no other call. *)
Lemma connect_timeout_no_handle (family timeout : Z) (m : machine) (e : positive) :
  0 < timeout ->
  script m (cursor m) = Failed e ->
  connector.connect_timeout family timeout m
  = (Err (Z.pos e), after_call (SysSocket family) (Failed e) m).
Proof.
  intros Hpos Hs. rewrite connect_timeout_stretches by exact Hpos.
  rewrite (recreate_failed family m e Hs). reflexivity.
Qed.

Lemma attempt_events (family timeout : Z) (m : machine) (evs : list event) :
  0 < timeout ->
  trace (snd (connector.connect_timeout family timeout m)) = trace m ++ evs ->
  forall x, attempt_call (fst x) = true -> In x evs ->
  exists v pre evC post res,
    script m (cursor m) = Done v
    /\ evs = pre ++ evC ++ post
    /\ fst (connector.connect_timeout family timeout m) = verdict res
    /\ attempt_run (Z.of_N v) family (bound_on m timeout) evC res
    /\ forall y, attempt_call (fst y) = true -> In y evs -> In y evC.
Proof.
  intros Hpos Htr x Hx Hin.
  destruct (script m (cursor m)) as [v|e] eqn:Hs.
  - destruct (connect_timeout_summary family timeout m v Hpos Hs)
      as (pre & evC & post & res & m4 & Heq & Htr4 & Hpre & Hpost & Hrun & _).
    rewrite Heq in *. cbn [fst snd] in *.
    rewrite Htr4 in Htr. apply app_inv_head in Htr. subst evs.
    exists v, pre, evC, post, res.
    refine (conj eq_refl (conj eq_refl (conj eq_refl (conj Hrun _)))).
    intros y Hy Hiny. exact (in_attempt_part y pre evC post Hy Hpre Hpost Hiny).
  - rewrite (connect_timeout_no_handle family timeout m e Hpos Hs) in Htr.
    cbn [snd after_call trace] in Htr. apply app_inv_head in Htr. subst evs.
    destruct Hin as [<-|[]]. discriminate Hx.
Qed.

(** ** The pending error decides (C1) and the silent wait times out (C2) *)

(** C1. In a timed connect ([timeout > 0]) whose [::connect] reported
    "in progress" or "would block" and whose readiness wait reported a
    ready descriptor, the pending-error option [SO_ERROR] of the socket is
    read; when the OS hands it out, a non-zero pending error is returned as
    the failure of the connect and a zero one makes the call succeed. *)
Theorem ready_connect_reads_pending_error
    (m : machine) (family timeout : Z) (evs : list event)
    (h : Z) (b : wait_bound) (e : positive) (k : N) :
  0 < timeout ->
  trace (snd (connector.connect_timeout family timeout m)) = trace m ++ evs ->
  In (SysConnect h family, Failed e) evs -> in_flight e ->
  In (SysWait h b, Done k) evs -> k <> 0%N ->
  exists r,
    In (SysGetSockOpt h SOL_SOCKET SO_ERROR, r) evs
    /\ forall pending, r = Done pending ->
         fst (connector.connect_timeout family timeout m)
         = if N.eqb pending 0 then Ok tt else Err (Z.of_N pending).
Proof.
  intros Hpos Htr Hc He Hw Hk.
  destruct (attempt_events family timeout m evs Hpos Htr
              (SysConnect h family, Failed e) eq_refl Hc)
    as (v & pre & evC & post & res & Hs & -> & Hres & Hrun & Hpart).
  pose proof (Hpart (SysConnect h family, Failed e) eq_refl Hc) as Hc'.
  pose proof (Hpart (SysWait h b, Done k) eq_refl Hw) as Hw'.
  assert (Hsub : forall x, In x evC -> In x (pre ++ evC ++ post)).
  { intros x Hx. rewrite !in_app_iff. right. left. exact Hx. }
  rewrite Hres.
  destruct Hrun as [v0|e0 Hn|e0 e1 Hf|e0 Hf|e0 k0 e1 Hf Hk0|e0 k0 p Hf Hk0];
    sift Hc'; sift Hw';
    simplify_eq; try contradiction.
  - exists (Failed e1). split.
    + apply Hsub. simpl. right. right. left. reflexivity.
    + intros pending Hp. discriminate Hp.
  - exists (Done p). split.
    + apply Hsub. simpl. right. right. left. reflexivity.
    + intros pending Hp. injection Hp as <-.
      unfold from_error. destruct (N.eqb_spec p 0) as [->|Hp0]; [reflexivity|].
      destruct (Z.eqb_spec (Z.of_N p) 0) as [Hz|_]; [lia|reflexivity].
Qed.

Lemma ready_connect_reads_pending_error_witness :
  exists r,
    In (SysGetSockOpt 3 SOL_SOCKET SO_ERROR, r)
       (trace (snd (connector.connect_timeout 2 50000 (pending_host 111))))
    /\ forall pending, r = Done pending ->
         fst (connector.connect_timeout 2 50000 (pending_host 111))
         = if N.eqb pending 0 then Ok tt else Err (Z.of_N pending).
Proof.
  apply (ready_connect_reads_pending_error (pending_host 111) 2 50000
           (trace (snd (connector.connect_timeout 2 50000 (pending_host 111))))
           3 (PollMs 50) errc.operation_in_progress 1).
  - lia.
  - reflexivity.
  - vm_compute. tauto.
  - left. reflexivity.
  - vm_compute. tauto.
  - discriminate.
Defined.

(** C2. In a timed connect ([timeout > 0]) whose [::connect] reported
    "in progress" or "would block" and whose readiness wait elapsed with
    nothing ready, the call returns the timed-out error, which answers to
    [errc::timed_out] and not to [errc::connection_refused]. *)
Theorem silent_wait_times_out
    (m : machine) (family timeout : Z) (evs : list event)
    (h : Z) (b : wait_bound) (e : positive) :
  0 < timeout ->
  trace (snd (connector.connect_timeout family timeout m)) = trace m ++ evs ->
  In (SysConnect h family, Failed e) evs -> in_flight e ->
  In (SysWait h b, Done 0) evs ->
  fst (connector.connect_timeout family timeout m) = Err (Z.pos errc.timed_out)
  /\ is_errc (fst (connector.connect_timeout family timeout m))
       errc.timed_out = true
  /\ is_errc (fst (connector.connect_timeout family timeout m))
       errc.connection_refused = false.
Proof.
  intros Hpos Htr Hc He Hw.
  destruct (attempt_events family timeout m evs Hpos Htr
              (SysConnect h family, Failed e) eq_refl Hc)
    as (v & pre & evC & post & res & Hs & -> & Hres & Hrun & Hpart).
  pose proof (Hpart (SysConnect h family, Failed e) eq_refl Hc) as Hc'.
  pose proof (Hpart (SysWait h b, Done 0%N) eq_refl Hw) as Hw'.
  rewrite Hres.
  destruct Hrun as [v0|e0 Hn|e0 e1 Hf|e0 Hf|e0 k0 e1 Hf Hk0|e0 k0 p Hf Hk0];
    sift Hc'; sift Hw';
    simplify_eq; try contradiction.
  repeat split.
Qed.

Lemma silent_wait_times_out_witness :
  fst (connector.connect_timeout 2 50000 silent_host) = Err 110
  /\ is_errc (fst (connector.connect_timeout 2 50000 silent_host))
       errc.timed_out = true
  /\ is_errc (fst (connector.connect_timeout 2 50000 silent_host))
       errc.connection_refused = false.
Proof.
  apply (silent_wait_times_out silent_host 2 50000
           (trace (snd (connector.connect_timeout 2 50000 silent_host)))
           3 (PollMs 50) errc.operation_in_progress).
  - lia.
  - reflexivity.
  - vm_compute. tauto.
  - left. reflexivity.
  - vm_compute. tauto.
Defined.

(** ** What a failure leaves behind (C3) *)

(** C3 as stated fails: with [timeout = 0] the call takes the untimed
    path; when [::connect] is refused there, the error is returned while
    the connector still owns descriptor 3, which is still open: no [close]
    was issued. *)
Lemma untimed_failure_keeps_handle :
  fst (connector.connect_timeout 2 0 refusing_host) = Err 111
  /\ handle_ (snd (connector.connect_timeout 2 0 refusing_host)) = 3
  /\ bool_decide (3 ∈ fds (snd (connector.connect_timeout 2 0 refusing_host)))
     = true
  /\ trace (snd (connector.connect_timeout 2 0 refusing_host))
     = [(SysSocket 2, Done 3);
        (SysConnect 3 2, Failed errc.connection_refused)].
Proof. repeat split. Qed.

(** C3, amended.  Every timed connect ([timeout > 0]) that was granted a
    descriptor and then fails, for whatever reason, ends with the release of
    that descriptor: the last call made is its [close], it has left the
    descriptor table, and the connector holds the invalid sentinel. *)
Theorem failed_timed_connect_closes_handle
    (m : machine) (family timeout : Z) (v : N) :
  0 < timeout ->
  script m (cursor m) = Done v ->
  is_ok (fst (connector.connect_timeout family timeout m)) = false ->
  handle_ (snd (connector.connect_timeout family timeout m)) = INVALID_SOCKET
  /\ (Z.of_N v ∉ fds (snd (connector.connect_timeout family timeout m)))
  /\ exists evs r,
       trace (snd (connector.connect_timeout family timeout m))
       = trace m ++ evs ++ [(SysClose (Z.of_N v), r)].
Proof.
  intros Hpos Hs Hfail.
  destruct (connect_timeout_summary family timeout m v Hpos Hs)
    as (pre & evC & post & res & m4 & Heq & Htr & _ & _ & _ & Hbad & _).
  rewrite Heq in *. cbn [fst snd] in *. rewrite verdict_ok in Hfail.
  destruct (Hbad Hfail) as (Hinv & Hgone & (r & ->) & _).
  split; [exact Hinv|]. split; [exact Hgone|].
  exists (pre ++ evC), r. rewrite Htr, <- !app_assoc. reflexivity.
Qed.

Lemma failed_timed_connect_closes_handle_witness :
  handle_ (snd (connector.connect_timeout 2 50000 refusing_host))
  = INVALID_SOCKET
  /\ (3 ∉ fds (snd (connector.connect_timeout 2 50000 refusing_host)))
  /\ exists evs r,
       trace (snd (connector.connect_timeout 2 50000 refusing_host))
       = trace refusing_host ++ evs ++ [(SysClose 3, r)].
Proof.
  apply (failed_timed_connect_closes_handle refusing_host 2 50000 3%N).
  - lia.
  - reflexivity.
  - reflexivity.
Defined.

(** ** The scope of the mode change (C4) *)

(** C4 as stated fails: a timed connect that is refused returns the error
    after a single mode change of descriptor 3, the switch to non-blocking;
    no call puts it back into blocking mode before the return. *)
Lemma failed_connect_leaves_mode_switched :
  fst (connector.connect_timeout 2 50000 refusing_host) = Err 111
  /\ mode_changes 3
       (trace (snd (connector.connect_timeout 2 50000 refusing_host)))
     = [true].
Proof. split; reflexivity. Qed.

(** C4, amended.  A timed connect ([timeout > 0]) works on a descriptor
    fresh from [::socket], which is in blocking mode.  A call that succeeds
    changes the mode of that descriptor exactly twice, to non-blocking and
    back, so the socket is in blocking mode again when the call returns.
    One that was granted a descriptor and fails changes the mode once, to
    non-blocking, and closes the descriptor instead of restoring it. *)
Theorem timed_connect_mode_scope
    (m : machine) (family timeout : Z) (evs : list event) :
  0 < timeout ->
  trace (snd (connector.connect_timeout family timeout m)) = trace m ++ evs ->
  (is_ok (fst (connector.connect_timeout family timeout m)) = true ->
   let m' := snd (connector.connect_timeout family timeout m) in
   handle_ m' ∈ fds m'
   /\ Z.land (flags_of m' (handle_ m')) O_NONBLOCK = 0
   /\ mode_changes (handle_ m') evs = [true; false])
  /\ (forall v,
      script m (cursor m) = Done v ->
      is_ok (fst (connector.connect_timeout family timeout m)) = false ->
      let m' := snd (connector.connect_timeout family timeout m) in
      (Z.of_N v ∉ fds m') /\ mode_changes (Z.of_N v) evs = [true]).
Proof.
  intros Hpos Htr. split.
  - intros Hok. destruct (script m (cursor m)) as [v|e] eqn:Hs.
    + destruct (connect_timeout_summary family timeout m v Hpos Hs)
        as (pre & evC & post & res & m4 & Heq & Htr4 & _ & _ & _ & _ & Hgood).
      rewrite Heq in *. cbn [fst snd] in *. rewrite verdict_ok in Hok.
      destruct (Hgood Hok) as (Hh & Hin & Hbit & Hmode).
      rewrite Htr4 in Htr. apply app_inv_head in Htr. subst evs.
      rewrite Hh. repeat split; assumption.
    + rewrite (connect_timeout_no_handle family timeout m e Hpos Hs) in Hok.
      discriminate Hok.
  - intros v Hs Hfail.
    destruct (connect_timeout_summary family timeout m v Hpos Hs)
      as (pre & evC & post & res & m4 & Heq & Htr4 & _ & _ & _ & Hbad & _).
    rewrite Heq in *. cbn [fst snd] in *. rewrite verdict_ok in Hfail.
    destruct (Hbad Hfail) as (_ & Hgone & _ & Hmode).
    rewrite Htr4 in Htr. apply app_inv_head in Htr. subst evs.
    split; assumption.
Qed.

Lemma timed_connect_mode_scope_witness :
  Z.land (flags_of (snd (connector.connect_timeout 2 50000 (pending_host 0)))
            (handle_ (snd (connector.connect_timeout 2 50000 (pending_host 0)))))
         O_NONBLOCK = 0
  /\ mode_changes 3
       (trace (snd (connector.connect_timeout 2 50000 refusing_host)))
     = [true].
Proof.
  split.
  - apply (proj1 (timed_connect_mode_scope (pending_host 0) 2 50000
             (trace (snd (connector.connect_timeout 2 50000 (pending_host 0))))
             ltac:(lia) eq_refl)).
    reflexivity.
  - apply (proj2 (timed_connect_mode_scope refusing_host 2 50000
             (trace (snd (connector.connect_timeout 2 50000 refusing_host)))
             ltac:(lia) eq_refl) 3%N); reflexivity.
Defined.

(** * Further properties *)

(** ** Durations *)

(** X1. [to_timeval] splits a non-negative duration into whole seconds and
    a remainder of less than a second, and loses nothing: seconds and
    microseconds add up to the duration again.  In the Windows build this
    needs the seconds to fit the 32-bit [long]. *)
Theorem to_timeval_splits (p : platform) (dur : Z) :
  0 <= dur ->
  (p = Windows -> dur < 2 ^ 31 * 1000000) ->
  exists sec usec,
    to_timeval p dur = SelectTv sec usec
    /\ sec * 1000000 + usec = dur
    /\ 0 <= sec /\ 0 <= usec < 1000000.
Proof.
  intros Hdur Hwin. unfold to_timeval.
  pose proof (Z.quot_rem' dur 1000000) as Hqr.
  pose proof (Z.rem_bound_pos dur 1000000 Hdur ltac:(lia)) as Hr.
  assert (Hq : 0 <= Z.quot dur 1000000) by (apply Z.quot_pos; lia).
  assert (Hsec : match p with
                 | Posix => Z.quot dur 1000000
                 | Windows => to_int (Z.quot dur 1000000)
                 end = Z.quot dur 1000000).
  { destruct p; [reflexivity|]. specialize (Hwin eq_refl).
    unfold to_int. rewrite Z.mod_small by lia. lia. }
  rewrite Hsec. eexists _, _. split; [reflexivity|]. lia.
Qed.

Lemma to_timeval_splits_witness :
  exists sec usec,
    to_timeval Windows 2500000 = SelectTv sec usec
    /\ sec * 1000000 + usec = 2500000
    /\ 0 <= sec /\ 0 <= usec < 1000000.
Proof.
  apply (to_timeval_splits Windows 2500000); [lia | intros _; reflexivity].
Defined.

(** ** More on the N-byte loops *)

(** X2. Asked for no bytes, [read_n] and [write_n] return [0] at once: the
    machine is as it was, no call reaches the OS. *)
Theorem nothing_to_transfer (in_error : error_code -> option Z)
    (fuel : nat) (m : machine) :
  stream_socket.read_n in_error (S fuel) 0 m = (Returned (Ok 0), m)
  /\ stream_socket.write_n in_error (S fuel) 0 m = (Returned (Ok 0), m).
Proof. split; reflexivity. Qed.

Lemma to_int_le (x : Z) : 0 <= x -> to_int x <= x.
Proof.
  intros Hx. unfold to_int.
  pose proof (Z.mod_le (x + 2 ^ 31) (2 ^ 32) ltac:(lia) ltac:(lia)). lia.
Qed.

Lemma len_on_le (m : machine) (x : Z) : 0 <= x -> len_on m x <= x.
Proof.
  intros Hx. unfold len_on. destruct (host m); [lia|apply to_int_le, Hx].
Qed.

Lemma clamp_bound (len : Z) (r : reply) (v : N) :
  clamp len r = Done v -> Z.of_N v <= Z.max 0 len.
Proof.
  destruct r as [w|e]; [|discriminate]. cbn [clamp]. intros [= <-]. lia.
Qed.

Lemma transferred_app (evs1 evs2 : list event) :
  transferred (evs1 ++ evs2) = transferred evs1 + transferred evs2.
Proof.
  induction evs1 as [|ev evs1 IH]; [reflexivity|].
  cbn [app transferred fold_right] in *. fold (transferred (evs1 ++ evs2)).
  fold (transferred evs1). rewrite IH. lia.
Qed.

Lemma read_n_loop_accounts in_error (n : Z) :
  in_error (Z.pos errc.interrupted) = Some 0 ->
  n < 2 ^ 64 ->
  forall fuel nx m k,
    0 <= nx <= n ->
    fst (stream_socket.read_n_loop in_error fuel n nx m) = Returned (Ok k) ->
    exists evs,
      trace (snd (stream_socket.read_n_loop in_error fuel n nx m))
      = trace m ++ evs
      /\ k = n /\ transferred evs = n - nx
      /\ Forall (fun ev => asked_of ev <= n - nx) evs.
Proof.
  intros Hacc Hn. induction fuel as [|fuel IH]; intros nx m k Hnx Hret;
    [discriminate|].
  rewrite read_n_loop_step in *. destruct (Z.ltb_spec nx n) as [Hlt|Hge].
  2:{ cbn [fst snd] in *. injection Hret as <-. exists [].
      rewrite app_nil_r.
      refine (conj eq_refl (conj _ (conj _ _)));
        [lia|cbn; lia|constructor]. }
  cbv zeta in *. rewrite read_unfold in *. cbv zeta in *. cbn [fst snd] in *.
  pose proof (len_on_le m (n - nx) ltac:(lia)) as Hlen.
  destruct (clamp (len_on m (n - nx)) (script m (cursor m))) as [v|e] eqn:Hr.
  - cbn [check_res is_ok negb andb stream_socket.value] in *.
    pose proof (clamp_bound _ _ _ Hr) as Hv.
    assert (Hadd : size_add nx (Z.of_N v) = nx + Z.of_N v).
    { unfold size_add. apply Z.mod_small. lia. }
    rewrite Hadd in *.
    assert (Hnx' : 0 <= nx + Z.of_N v <= n) by lia.
    destruct (IH _ _ _ Hnx' Hret) as (evs & Htr & Hk & Hsum & Hask).
    eexists (_ :: evs). split.
    { rewrite Htr. cbn [after_call trace]. rewrite <- app_assoc. reflexivity. }
    split; [exact Hk|]. split.
    { cbn [transferred fold_right bytes_of]. fold (transferred evs). lia. }
    constructor; [cbn [asked_of]; lia|].
    eapply Forall_impl; [exact Hask|]. cbn beta. intros ev Hev. lia.
  - rewrite guard_of_failure in *.
    destruct (Pos.eqb_spec e errc.interrupted) as [->|Hne].
    + cbn [negb check_res stream_socket.value] in *. rewrite Hacc in *.
      rewrite size_add_0 in * by lia.
      destruct (IH _ _ _ Hnx Hret) as (evs & Htr & Hk & Hsum & Hask).
      eexists (_ :: evs). split.
      { rewrite Htr. cbn [after_call trace]. rewrite <- app_assoc. reflexivity. }
      split; [exact Hk|]. split.
      { cbn [transferred fold_right bytes_of]. fold (transferred evs). lia. }
      constructor; [cbn [asked_of]; lia|exact Hask].
    + cbn [negb fst] in Hret. discriminate Hret.
Qed.

Lemma write_n_loop_accounts in_error (n : Z) :
  in_error (Z.pos errc.interrupted) = Some 0 ->
  n < 2 ^ 64 ->
  forall fuel nx m k,
    0 <= nx <= n ->
    fst (stream_socket.write_n_loop in_error fuel n nx m) = Returned (Ok k) ->
    exists evs,
      trace (snd (stream_socket.write_n_loop in_error fuel n nx m))
      = trace m ++ evs
      /\ k = n /\ transferred evs = n - nx
      /\ Forall (fun ev => asked_of ev <= n - nx) evs.
Proof.
  intros Hacc Hn. induction fuel as [|fuel IH]; intros nx m k Hnx Hret;
    [discriminate|].
  rewrite write_n_loop_step in *. destruct (Z.ltb_spec nx n) as [Hlt|Hge].
  2:{ cbn [fst snd] in *. injection Hret as <-. exists [].
      rewrite app_nil_r.
      refine (conj eq_refl (conj _ (conj _ _)));
        [lia|cbn; lia|constructor]. }
  cbv zeta in *. rewrite write_unfold in *. cbv zeta in *. cbn [fst snd] in *.
  pose proof (len_on_le m (n - nx) ltac:(lia)) as Hlen.
  destruct (clamp (len_on m (n - nx)) (script m (cursor m))) as [v|e] eqn:Hr.
  - cbn [check_res is_ok negb andb stream_socket.value] in *.
    pose proof (clamp_bound _ _ _ Hr) as Hv.
    assert (Hadd : size_add nx (Z.of_N v) = nx + Z.of_N v).
    { unfold size_add. apply Z.mod_small. lia. }
    rewrite Hadd in *.
    assert (Hnx' : 0 <= nx + Z.of_N v <= n) by lia.
    destruct (IH _ _ _ Hnx' Hret) as (evs & Htr & Hk & Hsum & Hask).
    eexists (_ :: evs). split.
    { rewrite Htr. cbn [after_call trace]. rewrite <- app_assoc. reflexivity. }
    split; [exact Hk|]. split.
    { cbn [transferred fold_right bytes_of]. fold (transferred evs). lia. }
    constructor; [cbn [asked_of]; lia|].
    eapply Forall_impl; [exact Hask|]. cbn beta. intros ev Hev. lia.
  - rewrite guard_of_failure in *.
    destruct (Pos.eqb_spec e errc.interrupted) as [->|Hne].
    + cbn [negb check_res stream_socket.value] in *. rewrite Hacc in *.
      rewrite size_add_0 in * by lia.
      destruct (IH _ _ _ Hnx Hret) as (evs & Htr & Hk & Hsum & Hask).
      eexists (_ :: evs). split.
      { rewrite Htr. cbn [after_call trace]. rewrite <- app_assoc. reflexivity. }
      split; [exact Hk|]. split.
      { cbn [transferred fold_right bytes_of]. fold (transferred evs). lia. }
      constructor; [cbn [asked_of]; lia|exact Hask].
    + cbn [negb fst] in Hret. discriminate Hret.
Qed.

(** X3. When [read_n] or [write_n] returns a count, the count is [n], the
    single calls it made moved exactly [n] bytes between them, and none of
    them asked the kernel for more than [n] bytes. *)
Theorem n_byte_loops_account (in_error : error_code -> option Z)
    (fuel : nat) (n k : Z) (m : machine) :
  in_error (Z.pos errc.interrupted) = Some 0 ->
  0 <= n < 2 ^ 64 ->
  (fst (stream_socket.read_n in_error fuel n m) = Returned (Ok k) ->
   k = n
   /\ exists evs,
        trace (snd (stream_socket.read_n in_error fuel n m)) = trace m ++ evs
        /\ transferred evs = n
        /\ Forall (fun ev => asked_of ev <= n) evs)
  /\ (fst (stream_socket.write_n in_error fuel n m) = Returned (Ok k) ->
      k = n
      /\ exists evs,
           trace (snd (stream_socket.write_n in_error fuel n m)) = trace m ++ evs
           /\ transferred evs = n
           /\ Forall (fun ev => asked_of ev <= n) evs).
Proof.
  intros Hacc [Hn0 Hn]. split; intros Hret.
  - destruct (read_n_loop_accounts in_error n Hacc Hn fuel 0 m k
                ltac:(lia) Hret) as (evs & Htr & Hk & Hsum & Hask).
    split; [exact Hk|]. exists evs. rewrite Z.sub_0_r in *.
    repeat split; assumption.
  - destruct (write_n_loop_accounts in_error n Hacc Hn fuel 0 m k
                ltac:(lia) Hret) as (evs & Htr & Hk & Hsum & Hask).
    split; [exact Hk|]. exists evs. rewrite Z.sub_0_r in *.
    repeat split; assumption.
Qed.

Lemma n_byte_loops_account_witness :
  8 = 8
  /\ exists evs,
       trace (snd (stream_socket.read_n unchecked 9 8
                     (boot Posix 5 [Done 3; Failed errc.interrupted; Done 9]
                        (Done 0))))
       = trace (boot Posix 5 [Done 3; Failed errc.interrupted; Done 9] (Done 0))
         ++ evs
       /\ transferred evs = 8
       /\ Forall (fun ev => asked_of ev <= 8) evs.
Proof.
  apply (proj1 (n_byte_loops_account unchecked 9 8 8
                  (boot Posix 5 [Done 3; Failed errc.interrupted; Done 9]
                     (Done 0))
                  eq_refl ltac:(lia))).
  reflexivity.
Defined.

Lemma write_n_loop_returns in_error (n : Z) (q : nat) :
  in_error (Z.pos errc.interrupted) = Some 0 ->
  n < 2 ^ 64 ->
  forall fuel nx m,
    0 <= nx <= n ->
    (host m = Windows -> n < 2 ^ 31) ->
    (forall i, (q <= i)%nat -> stalls (script m i) = false) ->
    (Z.to_nat (n - nx) + (q - cursor m) < fuel)%nat ->
    exists r,
      fst (stream_socket.write_n_loop in_error fuel n nx m) = Returned r
      /\ read_n_answer m (cursor m) n r.
Proof.
  intros Hacc Hn. induction fuel as [|fuel IH]; intros nx m Hnx Hw Hev Hfuel;
    [lia|].
  rewrite write_n_loop_step. destruct (Z.ltb_spec nx n) as [Hlt|Hge].
  2:{ exists (Ok nx). split; [reflexivity|]. left. f_equal. lia. }
  cbv zeta. rewrite write_unfold. cbv zeta. cbn [fst snd].
  rewrite len_on_small by (try lia; intros Hh; specialize (Hw Hh); lia).
  set (m' := after_call _ _ m).
  assert (Hm' : script m' = script m /\ host m' = host m
                /\ cursor m' = S (cursor m)) by (repeat split).
  destruct Hm' as (Hsc & Hho & Hcu).
  assert (Hshift : forall r, read_n_answer m' (cursor m') n r ->
                        aborts (script m (cursor m)) = false ->
                        read_n_answer m (cursor m) n r).
  { intros r [Hok | (e & k & He & Hk & Hne & Hbefore)] Hhere; [left; exact Hok|].
    right. exists e, (S k). rewrite Hsc, Hcu in *.
    replace (cursor m + S k)%nat with (S (cursor m) + k)%nat by lia.
    repeat split; try assumption.
    intros j Hj. destruct j as [|j].
    - rewrite Nat.add_0_r. exact Hhere.
    - replace (cursor m + S j)%nat with (S (cursor m) + j)%nat by lia.
      apply Hbefore. lia. }
  destruct (script m (cursor m)) as [v|e] eqn:Hs.
  - (* a successful write of [min v (n - nx)] bytes *)
    cbn [clamp check_res is_ok negb andb stream_socket.value].
    assert (Hadd : size_add nx (Z.of_N (N.min v (Z.to_N (n - nx))))
                   = nx + Z.of_N (N.min v (Z.to_N (n - nx)))).
    { unfold size_add. apply Z.mod_small. lia. }
    rewrite Hadd.
    destruct (IH (nx + Z.of_N (N.min v (Z.to_N (n - nx)))) m') as (r & Hr & Hans).
    + lia.
    + rewrite Hho. exact Hw.
    + rewrite Hsc. exact Hev.
    + rewrite Hcu. destruct (N.eq_dec v 0%N) as [-> | Hv].
      * (* a stall: it must lie before position [q] *)
        assert (cursor m < q)%nat.
        { destruct (Nat.lt_ge_cases (cursor m) q) as [?|Hle]; [assumption|].
          specialize (Hev _ Hle). rewrite Hs in Hev. discriminate. }
        rewrite N.min_0_l. simpl Z.of_N. rewrite Z.add_0_r. lia.
      * assert (1 <= Z.of_N (N.min v (Z.to_N (n - nx)))) by lia. lia.
    + exists r. split; [exact Hr|]. apply Hshift; [exact Hans|reflexivity].
  - cbn [clamp]. rewrite guard_of_failure.
    destruct (Pos.eqb_spec e errc.interrupted) as [-> | Hne].
    + (* interrupted: retried from the same count *)
      cbn [negb check_res stream_socket.value]. rewrite Hacc.
      rewrite size_add_0 by lia.
      destruct (IH nx m') as (r & Hr & Hans).
      * lia.
      * rewrite Hho. exact Hw.
      * rewrite Hsc. exact Hev.
      * rewrite Hcu.
        assert (cursor m < q)%nat.
        { destruct (Nat.lt_ge_cases (cursor m) q) as [?|Hle]; [assumption|].
          specialize (Hev _ Hle). rewrite Hs in Hev. discriminate. }
        lia.
      * exists r. split; [exact Hr|]. apply Hshift; [exact Hans|reflexivity].
    + (* any other error ends the loop *)
      cbn [negb check_res error fst].
      exists (Err (Z.pos e)). split; [reflexivity|].
      right. exists e, 0%nat. rewrite Nat.add_0_r.
      repeat split; try assumption. intros j Hj. lia.
Qed.

(** X4. [write_n] returns whenever the sequence of outcomes of the single
    [write] holds only finitely many zero-length successes and interrupted
    errors, and what it returns is exactly [n] or the first error that is
    not "interrupted" (for [n] below [2^31] where the Windows build narrows
    the length to [int]; the value read off an interrupted result is taken
    to be the default [0]). *)
Theorem write_n_terminates
    (in_error : error_code -> option Z) (n : Z) (q : nat) (m : machine) :
  in_error (Z.pos errc.interrupted) = Some 0 ->
  0 <= n < 2 ^ 64 ->
  (host m = Windows -> n < 2 ^ 31) ->
  (forall i, (q <= i)%nat -> stalls (script m i) = false) ->
  exists fuel r,
    fst (stream_socket.write_n in_error fuel n m) = Returned r
    /\ read_n_answer m (cursor m) n r.
Proof.
  intros Hacc Hn Hw Hev.
  exists (S (Z.to_nat n + (q - cursor m)))%nat.
  destruct (write_n_loop_returns in_error n q Hacc (proj2 Hn)
              (S (Z.to_nat n + (q - cursor m)))%nat 0 m) as (r & Hr & Hans);
    try assumption; try lia.
  exists r. split; assumption.
Qed.

Lemma write_n_terminates_witness :
  exists fuel r,
    fst (stream_socket.write_n unchecked fuel 4
           (boot Posix 5 [Failed errc.interrupted; Done 3; Failed 32%positive]
              (Done 1)))
    = Returned r
    /\ read_n_answer
         (boot Posix 5 [Failed errc.interrupted; Done 3; Failed 32%positive]
            (Done 1))
         0 4 r.
Proof.
  apply (write_n_terminates unchecked 4 1
           (boot Posix 5 [Failed errc.interrupted; Done 3; Failed 32%positive]
              (Done 1))).
  - reflexivity.
  - lia.
  - discriminate.
  - intros i Hi. simpl.
    destruct i as [|[|[|i]]]; try lia; try reflexivity.
    destruct i; reflexivity.
Defined.

(** ** Status flags and the blocking mode *)

Lemma of_to_N_nonneg (x : Z) : 0 <= Z.of_N (Z.to_N x).
Proof. lia. Qed.

Lemma set_flag_open (flag : Z) (on : bool) (m : machine) :
  handle_ m ∈ fds m ->
  socket.set_flag flag on m
  = (Ok tt,
     let fl := Z.of_N (Z.to_N (flags_of m (handle_ m))) in
     let fl' := if on then Z.lor fl flag else Z.land fl (Z.lnot flag) in
     Machine (handle_ m) (host m) (fds m) (<[handle_ m := fl']> (flags m))
       (script m) (cursor m)
       (trace m ++ [(SysGetFl (handle_ m),
                     Done (Z.to_N (flags_of m (handle_ m))));
                    (SysSetFl (handle_ m) fl', Done 0)])).
Proof.
  intros Hin.
  unfold socket.set_flag, socket.get_flags, socket.set_flags, socket.handle,
    sys_getfl, sys_setfl, note, bind_M, ret.
  repeat first [ rewrite decide_True by exact Hin
               | progress pj
               | progress cbn [check_res check_res_none is_ok] ].
  cbv zeta. rewrite <- app_assoc. reflexivity.
Qed.

Lemma is_non_blocking_open (m : machine) :
  handle_ m ∈ fds m ->
  fst (socket.is_non_blocking m)
  = negb (Z.land (Z.of_N (Z.to_N (flags_of m (handle_ m)))) O_NONBLOCK =? 0).
Proof.
  intros Hin.
  unfold socket.is_non_blocking, socket.get_flags, socket.handle, sys_getfl,
    note, bind_M, ret.
  rewrite decide_True by exact Hin. reflexivity.
Qed.



(** X6. In the POSIX build, after [set_non_blocking(on)] on an open
    descriptor [is_non_blocking()] answers [on]. *)
Theorem is_non_blocking_reads_back (on : bool) (m : machine) :
  host m = Posix ->
  handle_ m ∈ fds m ->
  fst (socket.set_non_blocking on m) = Ok tt
  /\ fst (socket.is_non_blocking (snd (socket.set_non_blocking on m))) = on.
Proof.
  intros Hh Hin. unfold socket.set_non_blocking. rewrite Hh.
  rewrite set_flag_open by exact Hin. cbv zeta. split; [reflexivity|].
  cbn [snd]. rewrite is_non_blocking_open by exact Hin.
  unfold flags_of at 1. cbn [flags handle_]. rewrite lookup_insert_eq.
  cbn [default from_option]; unfold id.
  pose proof (of_to_N_nonneg (flags_of m (handle_ m))) as Hnn.
  set (fl := Z.of_N (Z.to_N (flags_of m (handle_ m)))) in *.
  destruct on; cbv beta iota.
  - rewrite Z2N.id by (apply Z.lor_nonneg; split; [exact Hnn|discriminate]).
    rewrite land_lor_bit. reflexivity.
  - rewrite Z2N.id
      by (apply Z.land_nonneg; left; exact Hnn).
    rewrite land_clear_bit. reflexivity.
Qed.

Lemma is_non_blocking_reads_back_witness :
  fst (socket.set_non_blocking true
         (fresh_host Posix))
  = Ok tt
  /\ fst (socket.is_non_blocking
            (snd (socket.set_non_blocking true
                    (fresh_host Posix))))
     = true.
Proof.
  apply (is_non_blocking_reads_back true
           (fresh_host Posix)).
  - reflexivity.
  - vm_compute. reflexivity.
Defined.

Lemma lor_land_lnot_restores (x b : Z) :
  Z.land x b = 0 -> Z.land (Z.lor x b) (Z.lnot b) = x.
Proof.
  intros Hx. apply Z.bits_inj'. intros i Hi.
  rewrite Z.land_spec, Z.lor_spec, Z.lnot_spec by exact Hi.
  assert (Hb : Z.testbit x i && Z.testbit b i = false).
  { rewrite <- Z.land_spec, Hx. apply Z.bits_0. }
  destruct (Z.testbit x i), (Z.testbit b i); try reflexivity; discriminate.
Qed.

Lemma set_non_blocking_flags (on : bool) (m : machine) :
  handle_ m ∈ fds m ->
  0 <= flags_of m (handle_ m) ->
  exists evs,
    socket.set_non_blocking on m
    = (Ok tt,
       Machine (handle_ m) (host m) (fds m)
         (<[handle_ m :=
              if on then Z.lor (flags_of m (handle_ m)) O_NONBLOCK
              else Z.land (flags_of m (handle_ m)) (Z.lnot O_NONBLOCK)]>
            (flags m))
         (script m) (cursor m) (trace m ++ evs)).
Proof.
  intros Hin Hfl. unfold socket.set_non_blocking.
  destruct (host m) eqn:Hh.
  - rewrite set_flag_open by exact Hin. cbv zeta.
    rewrite Z2N.id by exact Hfl. rewrite Hh. eexists. reflexivity.
  - unfold socket.handle, sys_ioctl_fionbio, note, bind_M, ret.
    repeat first [ rewrite decide_True by exact Hin
                 | progress pj
                 | progress cbn [check_res check_res_none is_ok] ].
    rewrite Hh. destruct on; eexists; reflexivity.
Qed.

(** X7. Switching an open, blocking descriptor to non-blocking and back
    with [set_non_blocking] leaves its status flags exactly as they were,
    in both builds; the handle and the descriptor table are untouched. *)
Theorem set_non_blocking_round_trip (m : machine) :
  handle_ m ∈ fds m ->
  0 <= flags_of m (handle_ m) ->
  Z.land (flags_of m (handle_ m)) O_NONBLOCK = 0 ->
  let m1 := snd (socket.set_non_blocking true m) in
  let m2 := snd (socket.set_non_blocking false m1) in
  fst (socket.set_non_blocking true m) = Ok tt
  /\ fst (socket.set_non_blocking false m1) = Ok tt
  /\ Z.land (flags_of m1 (handle_ m)) O_NONBLOCK <> 0
  /\ flags_of m2 (handle_ m) = flags_of m (handle_ m)
  /\ handle_ m2 = handle_ m /\ fds m2 = fds m.
Proof.
  intros Hin Hfl Hblk. cbv zeta.
  destruct (set_non_blocking_flags true m Hin Hfl) as (evs1 & ->).
  cbn [fst snd].
  set (m1 := Machine _ _ _ _ _ _ _).
  assert (Hfl1 : flags_of m1 (handle_ m1)
                 = Z.lor (flags_of m (handle_ m)) O_NONBLOCK).
  { unfold flags_of at 1. cbn [m1 flags handle_].
    rewrite lookup_insert_eq. reflexivity. }
  assert (Hin1 : handle_ m1 ∈ fds m1) by exact Hin.
  assert (Hnn1 : 0 <= flags_of m1 (handle_ m1)).
  { rewrite Hfl1. apply Z.lor_nonneg. split; [exact Hfl|discriminate]. }
  destruct (set_non_blocking_flags false m1 Hin1 Hnn1) as (evs2 & ->).
  cbn [fst snd]. change (handle_ m1) with (handle_ m) in *.
  refine (conj eq_refl (conj eq_refl (conj _ (conj _ (conj eq_refl eq_refl))))).
  - rewrite Hfl1, land_lor_bit. discriminate.
  - unfold flags_of at 1. cbn [flags]. rewrite lookup_insert_eq.
    cbn [default from_option]; unfold id. rewrite Hfl1. apply lor_land_lnot_restores. exact Hblk.
Qed.

Lemma set_non_blocking_round_trip_witness :
  flags_of
    (snd (socket.set_non_blocking false
            (snd (socket.set_non_blocking true
                    (fresh_host Windows))))) 3
  = flags_of (fresh_host Windows) 3.
Proof.
  apply (set_non_blocking_round_trip
           (fresh_host Windows)).
  - vm_compute. reflexivity.
  - vm_compute. discriminate.
  - reflexivity.
Defined.

(** X8. On a descriptor that is not open (the invalid handle, for one)
    [set_flag] gives up after the failed [F_GETFL]: it returns that error,
    never issues [F_SETFL], and changes nothing but the call record;
    [is_non_blocking] answers [false] there. *)
Theorem set_flag_on_closed_descriptor (flag : Z) (on : bool) (m : machine) :
  handle_ m ∉ fds m ->
  socket.set_flag flag on m
  = (Err (Z.pos errc.bad_file_descriptor),
     Machine (handle_ m) (host m) (fds m) (flags m) (script m) (cursor m)
       (trace m ++ [(SysGetFl (handle_ m), Failed errc.bad_file_descriptor)]))
  /\ fst (socket.is_non_blocking m) = false.
Proof.
  intros Hout.
  unfold socket.set_flag, socket.is_non_blocking, socket.get_flags,
    socket.handle, sys_getfl, note, bind_M, ret.
  rewrite !decide_False by exact Hout. split; reflexivity.
Qed.

Lemma set_flag_on_closed_descriptor_witness :
  fst (socket.set_flag O_NONBLOCK true (boot Posix INVALID_SOCKET [] (Done 0)))
  = Err 9
  /\ fst (socket.is_non_blocking (boot Posix INVALID_SOCKET [] (Done 0)))
     = false.
Proof.
  destruct (set_flag_on_closed_descriptor O_NONBLOCK true
              (boot Posix INVALID_SOCKET [] (Done 0))) as [Hs Hn].
  - apply not_elem_of_empty.
  - rewrite Hs. split; [reflexivity|exact Hn].
Defined.

(** ** More on the connector *)

(** X9. [recreate] when the OS grants descriptor [v]: the connector owns
    [v], which is open; a previous handle that was invalid, or is [v]
    itself, costs no further call; any other previous handle is released
    with exactly one [close] and has left the descriptor table. *)
Theorem recreate_swaps_descriptors (family : Z) (m : machine) (v : N) :
  script m (cursor m) = Done v ->
  fst (connector.recreate family m) = Ok tt
  /\ handle_ (snd (connector.recreate family m)) = Z.of_N v
  /\ Z.of_N v ∈ fds (snd (connector.recreate family m))
  /\ (handle_ m = INVALID_SOCKET \/ handle_ m = Z.of_N v ->
      trace (snd (connector.recreate family m))
      = trace m ++ [(SysSocket family, Done v)])
  /\ (handle_ m <> INVALID_SOCKET -> handle_ m <> Z.of_N v ->
      (exists r,
          trace (snd (connector.recreate family m))
          = trace m ++ [(SysSocket family, Done v); (SysClose (handle_ m), r)])
      /\ (handle_ m ∉ fds (snd (connector.recreate family m)))).
Proof.
  intros Hs. unfold connector.recreate, connector.create_handle, sys_socket,
    bind_M, ret.
  rewrite ask_eq, Hs. cbn [check_socket check_res].
  unfold socket.reset, socket.handle, bind_M, ret. pj.
  assert (Hnew : forall s : gset Z, Z.of_N v ∈ {[Z.of_N v]} ∪ s).
  { intros s. apply elem_of_union_l, elem_of_singleton. reflexivity. }
  destruct (Z.eqb_spec (Z.of_N v) (handle_ m)) as [Heq|Hne]; cbn [negb].
  - pj. refine (conj eq_refl (conj _ (conj (Hnew _) (conj _ _)))).
    + symmetry. exact Heq.
    + intros _. reflexivity.
    + intros _ Hd. symmetry in Heq. contradiction.
  - destruct (Z.eqb_spec (handle_ m) INVALID_SOCKET) as [Hinv|Hval]; cbn [negb].
    + pj. refine (conj eq_refl (conj eq_refl (conj (Hnew _) (conj _ _)))).
      * intros _. reflexivity.
      * intros Hd _. contradiction.
    + unfold socket.close_handle, sys_close, bind_M, ret. pj.
      destruct (decide (handle_ m ∈ {[Z.of_N v]} ∪ fds m)) as [Hin|Hout].
      * rewrite ask_eq. pj.
        refine (conj eq_refl (conj eq_refl (conj _ (conj _ _)))).
        -- apply elem_of_difference. split; [apply Hnew|].
           rewrite elem_of_singleton. exact Hne.
        -- intros [Hd|Hd]; [contradiction|]. symmetry in Hd. contradiction.
        -- intros _ _. split.
           ++ eexists. rewrite <- app_assoc. reflexivity.
           ++ apply not_elem_of_difference. right. apply elem_of_singleton.
              reflexivity.
      * unfold note. pj.
        refine (conj eq_refl (conj eq_refl (conj (Hnew _) (conj _ _)))).
        -- intros [Hd|Hd]; [contradiction|]. symmetry in Hd. contradiction.
        -- intros _ _. split.
           ++ eexists. rewrite <- app_assoc. reflexivity.
           ++ exact Hout.
Qed.

Lemma recreate_swaps_descriptors_witness :
  fst (connector.recreate 2 (busy_host Posix [Done 3; Done 0])) = Ok tt
  /\ handle_ (snd (connector.recreate 2 (busy_host Posix [Done 3; Done 0]))) = 3
  /\ (7 ∉ fds (snd (connector.recreate 2 (busy_host Posix [Done 3; Done 0])))).
Proof.
  destruct (recreate_swaps_descriptors 2 (busy_host Posix [Done 3; Done 0]) 3
              eq_refl) as (Hok & Hh & _ & _ & Hold).
  split; [exact Hok|]. split; [exact Hh|].
  apply Hold; discriminate.
Defined.

(** X10. When the OS refuses to hand out a descriptor, both [connect]
    overloads return that error after the one [::socket] call: the
    connector keeps the handle it had, and the descriptor behind it stays
    open and untouched. *)
Theorem connect_without_descriptor (family timeout : Z) (m : machine)
    (e : positive) :
  script m (cursor m) = Failed e ->
  connector.connect family m
  = (Err (Z.pos e), after_call (SysSocket family) (Failed e) m)
  /\ connector.connect_timeout family timeout m
     = (Err (Z.pos e), after_call (SysSocket family) (Failed e) m).
Proof.
  intros Hs.
  assert (Hc : connector.connect family m
               = (Err (Z.pos e), after_call (SysSocket family) (Failed e) m)).
  { unfold connector.connect, bind_M.
    rewrite (recreate_failed family m e Hs). reflexivity. }
  split; [exact Hc|].
  destruct (Z.leb_spec timeout 0) as [Hle|Hgt].
  - unfold connector.connect_timeout.
    apply Z.leb_le in Hle. rewrite Hle. exact Hc.
  - apply connect_timeout_no_handle; assumption.
Qed.

Lemma connect_without_descriptor_witness :
  connector.connect 2 exhausted_host
  = (Err 24, after_call (SysSocket 2) (Failed 24%positive) exhausted_host)
  /\ connector.connect_timeout 2 50000 exhausted_host
     = (Err 24, after_call (SysSocket 2) (Failed 24%positive) exhausted_host).
Proof.
  apply (connect_without_descriptor 2 50000 exhausted_host 24%positive).
  reflexivity.
Defined.

(** X11. The untimed [connect], once granted descriptor [v], makes
    [::connect] its last call and returns what that call reported; whether
    it succeeded or failed, the connector owns [v] afterwards and [v] is
    still open: this overload never closes the descriptor it created. *)
Theorem untimed_connect_keeps_descriptor (family : Z) (m : machine) (v : N) :
  script m (cursor m) = Done v ->
  handle_ (snd (connector.connect family m)) = Z.of_N v
  /\ Z.of_N v ∈ fds (snd (connector.connect family m))
  /\ exists pre r,
       trace (snd (connector.connect family m))
       = trace m ++ pre ++ [(SysConnect (Z.of_N v) family, r)]
       /\ Forall (fun ev => lifecycle_call (fst ev) = true) pre
       /\ (forall e, r = Failed e ->
             fst (connector.connect family m) = Err (Z.pos e))
       /\ (forall k, r = Done k -> fst (connector.connect family m) = Ok tt).
Proof.
  intros Hs.
  destruct (recreate_done family m v Hs)
    as (m1 & pre & Heq & Hh1 & Hin1 & _ & _ & _ & Htr1 & Hpre).
  unfold connector.connect, bind_M. rewrite Heq. cbn [is_ok negb].
  unfold socket.handle, ret. rewrite ask_eq. pj. rewrite Hh1.
  refine (conj eq_refl (conj Hin1 _)).
  exists pre, (script m1 (cursor m1)).
  refine (conj _ (conj Hpre (conj _ _))).
  - rewrite Htr1, <- app_assoc. reflexivity.
  - intros e ->. reflexivity.
  - intros k ->. reflexivity.
Qed.

Lemma untimed_connect_keeps_descriptor_witness :
  handle_ (snd (connector.connect 2 refusing_host)) = 3
  /\ 3 ∈ fds (snd (connector.connect 2 refusing_host))
  /\ exists pre r,
       trace (snd (connector.connect 2 refusing_host))
       = trace refusing_host ++ pre ++ [(SysConnect 3 2, r)]
       /\ Forall (fun ev => lifecycle_call (fst ev) = true) pre
       /\ (forall e, r = Failed e ->
             fst (connector.connect 2 refusing_host) = Err (Z.pos e))
       /\ (forall k, r = Done k -> fst (connector.connect 2 refusing_host) = Ok tt).
Proof.
  apply (untimed_connect_keeps_descriptor 2 refusing_host 3). reflexivity.
Defined.

Lemma no_attempt_event (evC evs : list event) (x : event) :
  attempt_call (fst x) = true ->
  (forall y, attempt_call (fst y) = true -> In y evs -> In y evC) ->
  ~ In x evC -> ~ In x evs.
Proof. intros Hx Hpart Hno Hin. apply Hno, Hpart; assumption. Qed.

(** X12. A timed connect whose [::connect] succeeds at once returns
    success without waiting: no readiness wait and no [SO_ERROR] read are
    made. *)
Theorem immediate_success_skips_wait
    (m : machine) (family timeout : Z) (evs : list event) (h : Z) (v : N) :
  0 < timeout ->
  trace (snd (connector.connect_timeout family timeout m)) = trace m ++ evs ->
  In (SysConnect h family, Done v) evs ->
  fst (connector.connect_timeout family timeout m) = Ok tt
  /\ (forall h' b r, ~ In (SysWait h' b, r) evs)
  /\ (forall h' l o r, ~ In (SysGetSockOpt h' l o, r) evs).
Proof.
  intros Hpos Htr Hc.
  destruct (attempt_events family timeout m evs Hpos Htr
              (SysConnect h family, Done v) eq_refl Hc)
    as (v1 & pre & evC & post & res & Hs & -> & Hres & Hrun & Hpart).
  pose proof (Hpart (SysConnect h family, Done v) eq_refl Hc) as Hc'.
  rewrite Hres.
  destruct Hrun as [v0|e0 Hn|e0 e1 Hf|e0 Hf|e0 k0 e1 Hf Hk0|e0 k0 p Hf Hk0];
    sift Hc'.
  split; [reflexivity|]. split.
  - intros h' b r.
    apply (no_attempt_event _ _ (SysWait h' b, r) eq_refl Hpart).
    intros Hin. sift Hin.
  - intros h' l o r.
    apply (no_attempt_event _ _ (SysGetSockOpt h' l o, r) eq_refl Hpart).
    intros Hin. sift Hin.
Qed.

Lemma immediate_success_skips_wait_witness :
  fst (connector.connect_timeout 2 50000 welcoming_host) = Ok tt
  /\ (forall h' b r,
        ~ In (SysWait h' b, r)
            (trace (snd (connector.connect_timeout 2 50000 welcoming_host))))
  /\ (forall h' l o r,
        ~ In (SysGetSockOpt h' l o, r)
            (trace (snd (connector.connect_timeout 2 50000 welcoming_host)))).
Proof.
  apply (immediate_success_skips_wait welcoming_host 2 50000
           (trace (snd (connector.connect_timeout 2 50000 welcoming_host)))
           3 0%N).
  - lia.
  - reflexivity.
  - vm_compute. tauto.
Defined.

(** X13. A timed connect whose [::connect] fails with an error other than
    "in progress" and "would block" returns that very error without
    waiting. *)
Theorem immediate_failure_is_returned
    (m : machine) (family timeout : Z) (evs : list event) (h : Z)
    (e : positive) :
  0 < timeout ->
  trace (snd (connector.connect_timeout family timeout m)) = trace m ++ evs ->
  In (SysConnect h family, Failed e) evs ->
  ~ in_flight e ->
  fst (connector.connect_timeout family timeout m) = Err (Z.pos e)
  /\ (forall h' b r, ~ In (SysWait h' b, r) evs).
Proof.
  intros Hpos Htr Hc Hnf.
  destruct (attempt_events family timeout m evs Hpos Htr
              (SysConnect h family, Failed e) eq_refl Hc)
    as (v1 & pre & evC & post & res & Hs & -> & Hres & Hrun & Hpart).
  pose proof (Hpart (SysConnect h family, Failed e) eq_refl Hc) as Hc'.
  rewrite Hres.
  destruct Hrun as [v0|e0 Hn|e0 e1 Hf|e0 Hf|e0 k0 e1 Hf Hk0|e0 k0 p Hf Hk0];
    sift Hc'; simplify_eq; try contradiction.
  split; [reflexivity|].
  intros h' b r.
  apply (no_attempt_event _ _ (SysWait h' b, r) eq_refl Hpart).
  intros Hin. sift Hin.
Qed.

Lemma immediate_failure_is_returned_witness :
  fst (connector.connect_timeout 2 50000 refusing_host) = Err 111
  /\ (forall h' b r,
        ~ In (SysWait h' b, r)
            (trace (snd (connector.connect_timeout 2 50000 refusing_host)))).
Proof.
  apply (immediate_failure_is_returned refusing_host 2 50000
           (trace (snd (connector.connect_timeout 2 50000 refusing_host)))
           3 errc.connection_refused).
  - lia.
  - reflexivity.
  - vm_compute. tauto.
  - intros [H|H]; discriminate H.
Defined.

(** X14. A timed connect whose readiness wait itself fails returns the
    error of the wait. *)
Theorem failed_wait_is_returned
    (m : machine) (family timeout : Z) (evs : list event) (h : Z)
    (b : wait_bound) (e : positive) :
  0 < timeout ->
  trace (snd (connector.connect_timeout family timeout m)) = trace m ++ evs ->
  In (SysWait h b, Failed e) evs ->
  fst (connector.connect_timeout family timeout m) = Err (Z.pos e).
Proof.
  intros Hpos Htr Hw.
  destruct (attempt_events family timeout m evs Hpos Htr
              (SysWait h b, Failed e) eq_refl Hw)
    as (v1 & pre & evC & post & res & Hs & -> & Hres & Hrun & Hpart).
  pose proof (Hpart (SysWait h b, Failed e) eq_refl Hw) as Hw'.
  rewrite Hres.
  destruct Hrun as [v0|e0 Hn|e0 e1 Hf|e0 Hf|e0 k0 e1 Hf Hk0|e0 k0 p Hf Hk0];
    sift Hw'; simplify_eq.
  reflexivity.
Qed.

Lemma failed_wait_is_returned_witness :
  fst (connector.connect_timeout 2 50000 broken_wait_host) = Err 4.
Proof.
  apply (failed_wait_is_returned broken_wait_host 2 50000
           (trace (snd (connector.connect_timeout 2 50000 broken_wait_host)))
           3 (PollMs 50) errc.interrupted).
  - lia.
  - reflexivity.
  - vm_compute. tauto.
Defined.

(** X15. A timed connect whose descriptor became ready but whose
    [SO_ERROR] could not be read ([getsockopt] failed) reports success:
    the failure to read the pending error is not returned. *)
Theorem unread_pending_error_is_success
    (m : machine) (family timeout : Z) (evs : list event) (h l o : Z)
    (e : positive) :
  0 < timeout ->
  trace (snd (connector.connect_timeout family timeout m)) = trace m ++ evs ->
  In (SysGetSockOpt h l o, Failed e) evs ->
  fst (connector.connect_timeout family timeout m) = Ok tt.
Proof.
  intros Hpos Htr Hg.
  destruct (attempt_events family timeout m evs Hpos Htr
              (SysGetSockOpt h l o, Failed e) eq_refl Hg)
    as (v1 & pre & evC & post & res & Hs & -> & Hres & Hrun & Hpart).
  pose proof (Hpart (SysGetSockOpt h l o, Failed e) eq_refl Hg) as Hg'.
  rewrite Hres.
  destruct Hrun as [v0|e0 Hn|e0 e1 Hf|e0 Hf|e0 k0 e1 Hf Hk0|e0 k0 p Hf Hk0];
    sift Hg'; simplify_eq.
  reflexivity.
Qed.

Lemma unread_pending_error_is_success_witness :
  fst (connector.connect_timeout 2 50000 unread_host) = Ok tt.
Proof.
  apply (unread_pending_error_is_success unread_host 2 50000
           (trace (snd (connector.connect_timeout 2 50000 unread_host)))
           3 SOL_SOCKET SO_ERROR errc.bad_file_descriptor).
  - lia.
  - reflexivity.
  - vm_compute. tauto.
Defined.

(** X16. The bound of the readiness wait in the POSIX build is the timeout
    in whole milliseconds, rounded down and narrowed to [int]: a timeout
    below one millisecond polls with [0] (no wait at all), one below
    [2^31] ms polls with its millisecond count, and one from [2^31] ms up
    to [2^32] ms reaches [poll] as a negative count. *)
Theorem poll_bound_in_milliseconds
    (m : machine) (family timeout : Z) (evs : list event) (h : Z)
    (b : wait_bound) (r : reply) :
  host m = Posix ->
  0 < timeout ->
  trace (snd (connector.connect_timeout family timeout m)) = trace m ++ evs ->
  In (SysWait h b, r) evs ->
  exists ms,
    b = PollMs ms
    /\ (timeout < 1000 -> ms = 0)
    /\ (timeout < 2 ^ 31 * 1000 ->
        0 <= ms /\ ms * 1000 <= timeout < (ms + 1) * 1000)
    /\ (2 ^ 31 * 1000 <= timeout < 2 ^ 32 * 1000 -> ms < 0).
Proof.
  intros Hh Hpos Htr Hw.
  destruct (attempt_events family timeout m evs Hpos Htr
              (SysWait h b, r) eq_refl Hw)
    as (v1 & pre & evC & post & res & Hs & -> & Hres & Hrun & Hpart).
  pose proof (Hpart (SysWait h b, r) eq_refl Hw) as Hw'.
  assert (Hb : b = PollMs (to_int (Z.quot timeout 1000))).
  { unfold bound_on in Hrun. rewrite Hh in Hrun.
    destruct Hrun as [v0|e0 Hn|e0 e1 Hf|e0 Hf|e0 k0 e1 Hf Hk0|e0 k0 p Hf Hk0];
      sift Hw'; simplify_eq; reflexivity. }
  exists (to_int (Z.quot timeout 1000)). split; [exact Hb|].
  pose proof (Z.quot_rem' timeout 1000) as Hqr.
  pose proof (Z.rem_bound_pos timeout 1000 ltac:(lia) ltac:(lia)) as Hr.
  assert (Hq : 0 <= Z.quot timeout 1000) by (apply Z.quot_pos; lia).
  unfold to_int. split; [|split].
  - intros Hlt. assert (Z.quot timeout 1000 = 0) by lia.
    replace (Z.quot timeout 1000) with 0. reflexivity.
  - intros Hlt. rewrite Z.mod_small by lia. lia.
  - intros [Hlo Hhi].
    assert (Hrange : 2 ^ 31 <= Z.quot timeout 1000 < 2 ^ 32) by lia.
    replace (Z.quot timeout 1000 + 2 ^ 31)
      with ((Z.quot timeout 1000 - 2 ^ 31) + 1 * 2 ^ 32) by lia.
    rewrite Z.mod_add by lia. rewrite Z.mod_small by lia. lia.
Qed.

Lemma poll_bound_in_milliseconds_witness :
  exists ms,
    PollMs 0 = PollMs ms
    /\ (999 < 1000 -> ms = 0)
    /\ (999 < 2 ^ 31 * 1000 -> 0 <= ms /\ ms * 1000 <= 999 < (ms + 1) * 1000)
    /\ (2 ^ 31 * 1000 <= 999 < 2 ^ 32 * 1000 -> ms < 0).
Proof.
  apply (poll_bound_in_milliseconds silent_host 2 999
           (trace (snd (connector.connect_timeout 2 999 silent_host)))
           3 (PollMs 0) (Done 0)).
  - reflexivity.
  - lia.
  - reflexivity.
  - vm_compute. tauto.
Defined.

(** ** Composition of [reset] and [close] *)

(** X17. Replacing a valid handle with another valid one by [reset] and
    closing afterwards releases each of the two descriptors exactly once,
    the old one first; the object ends with the invalid sentinel and
    neither descriptor is left in the table. *)
Theorem reset_then_close_releases_both (m : machine) (h : Z) :
  handle_ m <> INVALID_SOCKET ->
  h <> INVALID_SOCKET ->
  h <> handle_ m ->
  handle_ (snd (socket.close (snd (socket.reset h m)))) = INVALID_SOCKET
  /\ (exists r1 r2,
         trace (snd (socket.close (snd (socket.reset h m))))
         = trace m ++ [(SysClose (handle_ m), r1); (SysClose h, r2)])
  /\ (handle_ m ∉ fds (snd (socket.close (snd (socket.reset h m)))))
  /\ (h ∉ fds (snd (socket.close (snd (socket.reset h m))))).
Proof.
  intros Hold Hnew Hne.
  apply Z.eqb_neq in Hold, Hnew, Hne.
  unfold socket.reset, socket.handle, socket.close_handle, bind_M, ret.
  rewrite Hne, Hold. cbn [negb]. unfold sys_close. cbv beta. pj.
  destruct (decide (handle_ m ∈ fds m)) as [Hin|Hout].
  - unfold bind_M. rewrite ask_eq. pj.
    unfold socket.close, socket.handle, socket.release, socket.close_handle,
      bind_M, ret. pj. rewrite Hnew. cbn [negb]. pj. unfold sys_close. pj.
    destruct (decide (h ∈ fds m ∖ {[handle_ m]})) as [Hin2|Hout2].
    + unfold bind_M. rewrite ask_eq. pj.
      refine (conj eq_refl (conj _ (conj _ _))).
      * eexists _, _. rewrite <- app_assoc. reflexivity.
      * rewrite !not_elem_of_difference. left. right.
        apply elem_of_singleton. reflexivity.
      * apply not_elem_of_difference. right. apply elem_of_singleton.
        reflexivity.
    + unfold note. pj.
      refine (conj eq_refl (conj _ (conj _ Hout2))).
      * eexists _, _. rewrite <- app_assoc. reflexivity.
      * apply not_elem_of_difference. right. apply elem_of_singleton.
        reflexivity.
  - unfold note. pj.
    unfold socket.close, socket.handle, socket.release, socket.close_handle,
      bind_M, ret. pj. rewrite Hnew. cbn [negb]. pj. unfold sys_close. pj.
    destruct (decide (h ∈ fds m)) as [Hin2|Hout2].
    + unfold bind_M. rewrite ask_eq. pj.
      refine (conj eq_refl (conj _ (conj _ _))).
      * eexists _, _. rewrite <- app_assoc. reflexivity.
      * apply not_elem_of_difference. left. exact Hout.
      * apply not_elem_of_difference. right. apply elem_of_singleton.
        reflexivity.
    + unfold note. pj.
      refine (conj eq_refl (conj _ (conj Hout Hout2))).
      eexists _, _. rewrite <- app_assoc. reflexivity.
Qed.

Lemma reset_then_close_releases_both_witness :
  handle_ (snd (socket.close (snd (socket.reset 4
             (boot_open Posix 3 [3; 4] [] (Done 0)))))) = INVALID_SOCKET
  /\ (exists r1 r2,
         trace (snd (socket.close (snd (socket.reset 4
                  (boot_open Posix 3 [3; 4] [] (Done 0))))))
         = trace (boot_open Posix 3 [3; 4] [] (Done 0))
           ++ [(SysClose 3, r1); (SysClose 4, r2)])
  /\ (3 ∉ fds (snd (socket.close (snd (socket.reset 4
                 (boot_open Posix 3 [3; 4] [] (Done 0)))))))
  /\ (4 ∉ fds (snd (socket.close (snd (socket.reset 4
                 (boot_open Posix 3 [3; 4] [] (Done 0))))))).
Proof.
  apply (reset_then_close_releases_both
           (boot_open Posix 3 [3; 4] [] (Done 0)) 4); discriminate.
Defined.

(** ** [datagram_socket::open] *)

Lemma bind_frame (family reuse : Z) (m : machine) :
  handle_ (snd (socket.bind family reuse m)) = handle_ m
  /\ fds (snd (socket.bind family reuse m)) = fds m
  /\ exists evs,
       trace (snd (socket.bind family reuse m)) = trace m ++ evs
       /\ Forall (fun ev => lifecycle_call (fst ev) = false) evs.
Proof.
  unfold socket.bind, socket.set_option, socket.handle, bind_M, ret.
  destruct (negb (reuse =? 0)).
  - destruct (match host m with
              | Posix => _
              | Windows => _
              end).
    + refine (conj eq_refl (conj eq_refl _)). exists [].
      rewrite app_nil_r. split; [reflexivity|constructor].
    + rewrite ask_eq. pj.
      destruct (script m (cursor m)) as [k|e]; cbn [check_res_none is_ok negb].
      * rewrite ask_eq. pj. refine (conj eq_refl (conj eq_refl _)).
        eexists [_; _]. rewrite <- app_assoc.
        split; [reflexivity|repeat constructor].
      * pj. refine (conj eq_refl (conj eq_refl _)).
        eexists [_]. split; [reflexivity|repeat constructor].
  - rewrite ask_eq. pj. refine (conj eq_refl (conj eq_refl _)).
    eexists [_]. split; [reflexivity|repeat constructor].
Qed.

Lemma datagram_open_eq (reuse family : Z) (m : machine) :
  datagram_socket.open reuse family m =
  match connector.recreate family m with
  | (Err e, m1) => (Err e, m1)
  | (Ok _, m1) =>
      match socket.bind family reuse m1 with
      | (res, m2) =>
          if negb (is_ok res) then (res, snd (socket.close m2))
          else (Ok tt, m2)
      end
  end.
Proof.
  unfold datagram_socket.open, datagram_socket.create_handle,
    connector.recreate, connector.create_handle, bind_M, ret.
  destruct (sys_socket family m) as [r m0].
  destruct (check_socket r) as [h|e]; [|reflexivity].
  destruct (socket.reset h m0) as [u m1].
  destruct (socket.bind family reuse m1) as [res m2].
  destruct (negb (is_ok res)); [|reflexivity].
  destruct (socket.close m2); reflexivity.
Qed.

(** X18. [datagram_socket::open]: when the OS refuses a descriptor its
    error is returned after that one call; once descriptor [v] is granted,
    a successful open leaves the socket owning the open [v], and a failed
    one (the reuse option or the bind was refused) returns the error with
    [v] released by a final [close] and the socket holding the invalid
    sentinel. *)
Theorem datagram_open_outcome (reuse family : Z) (m : machine) :
  (forall e, script m (cursor m) = Failed e ->
     datagram_socket.open reuse family m
     = (Err (Z.pos e), after_call (SysSocket family) (Failed e) m))
  /\ (forall v, script m (cursor m) = Done v ->
      (is_ok (fst (datagram_socket.open reuse family m)) = true ->
       handle_ (snd (datagram_socket.open reuse family m)) = Z.of_N v
       /\ Z.of_N v ∈ fds (snd (datagram_socket.open reuse family m)))
      /\ (is_ok (fst (datagram_socket.open reuse family m)) = false ->
          handle_ (snd (datagram_socket.open reuse family m)) = INVALID_SOCKET
          /\ (Z.of_N v ∉ fds (snd (datagram_socket.open reuse family m)))
          /\ exists evs r,
               trace (snd (datagram_socket.open reuse family m))
               = trace m ++ evs ++ [(SysClose (Z.of_N v), r)])).
Proof.
  split.
  - intros e Hs. rewrite datagram_open_eq, (recreate_failed family m e Hs).
    reflexivity.
  - intros v Hs. rewrite datagram_open_eq.
    destruct (recreate_done family m v Hs)
      as (m1 & evA & -> & Hh1 & Hin1 & _ & _ & _ & Htr1 & _).
    destruct (bind_frame family reuse m1) as (Hh2 & Hfd2 & evB & Htr2 & _).
    destruct (socket.bind family reuse m1) as [res m2]. cbn [fst snd] in *.
    destruct res as [u|e]; cbn [is_ok negb fst snd].
    + split; [|discriminate]. intros _.
      split; [congruence|]. rewrite Hfd2. exact Hin1.
    + split; [discriminate|]. intros _.
      assert (Hval : handle_ m2 <> INVALID_SOCKET).
      { rewrite Hh2, Hh1. unfold INVALID_SOCKET. lia. }
      destruct (close_valid_trace m2 Hval) as (r & Htr3 & _ & Hgone).
      split; [apply close_leaves_invalid|].
      rewrite Hh2, Hh1 in Hgone, Htr3. split; [exact Hgone|].
      exists (evA ++ evB), r.
      rewrite Htr3, Htr2, Htr1, <- !app_assoc. reflexivity.
Qed.

Lemma datagram_open_outcome_witness :
  datagram_socket.open 0 2 exhausted_host
  = (Err 24, after_call (SysSocket 2) (Failed 24%positive) exhausted_host)
  /\ handle_ (snd (datagram_socket.open 0 2
                     (boot Posix INVALID_SOCKET [Done 3; Failed 98%positive]
                        (Done 0))))
     = INVALID_SOCKET.
Proof.
  split.
  - apply (proj1 (datagram_open_outcome 0 2 exhausted_host) 24%positive).
    reflexivity.
  - apply (proj2 (proj2 (datagram_open_outcome 0 2
                    (boot Posix INVALID_SOCKET [Done 3; Failed 98%positive]
                       (Done 0))) 3%N eq_refl)).
    reflexivity.
Defined.
